(** * Document assembly and table-grid reconstruction of [docling]

    A shallow embedding of [ConvertedDocument.to_ds_document]
    (src/docling/datamodel/document.py) and the properties of the assembled
    document: table grids, reference paths, label mapping, page lookup and
    the frame of the receiver. *)

From Stdlib Require Import ZArith QArith Qcanon Lia.
From stdpp Require Import base numbers list list_numbers strings pretty gmap.

Local Open Scope string_scope.
Local Open Scope list_scope.
Local Open Scope Z_scope.

(** ** Exceptions and the store *)

(** The Python exceptions the method can raise: a missing dictionary key,
    a list index out of range, an attribute read on [None]. *)
Inductive exn :=
| KeyError (key : Z)
| IndexError
| AttributeError.

Inductive result (A : Type) :=
| Ok (a : A)
| Raise (e : exn).
Arguments Ok {A} a.
Arguments Raise {A} e.

(** A Python object: its identity and its (immutable once built) value.
    Two references denote the same instance iff their [oid]s agree. *)
Record obj (A : Type) := Obj { oid : nat; oval : A }.
Arguments Obj {A} oid oval.
Arguments oid {A} o.
Arguments oval {A} o.

(** ** Input data model (docling.datamodel.base_models) *)

(** Coordinates are exact rationals; every finite float is one. *)
Record BoundingBox := { bb_l : Qc; bb_t : Qc; bb_r : Qc; bb_b : Qc }.

Definition DsBoundingBox : Type := Qc * Qc * Qc * Qc.

(** Modelled from the spec: [BoundingBox.to_bottom_left_origin] is declared
    in docling.datamodel.base_models, which is not part of the sources at
    hand. The transform is [top' = pageHeight - bottom],
    [bottom' = pageHeight - top], left and right unchanged, exact. *)
Definition to_bottom_left_origin (bbox : BoundingBox) (page_height : Qc)
  : BoundingBox :=
  {| bb_l := bb_l bbox;
     bb_t := (page_height - bb_b bbox)%Qc;
     bb_r := bb_r bbox;
     bb_b := (page_height - bb_t bbox)%Qc |}.

(** Modelled from the spec: [BoundingBox.as_tuple], the box as
    (left, top, right, bottom). *)
Definition as_tuple (bbox : BoundingBox) : DsBoundingBox :=
  (bb_l bbox, bb_t bbox, bb_r bbox, bb_b bbox).

(** A cell-span declaration of a table element ([element.table_cells]). *)
Record Cell := {
  start_row_offset_idx : Z;
  end_row_offset_idx : Z;
  start_col_offset_idx : Z;
  end_col_offset_idx : Z;
  cell_text : string;
  cell_bbox : BoundingBox;
  column_header : bool;
  row_header : bool
}.

Record Cluster := { cl_bbox : BoundingBox }.

(** The three element classes tested by [isinstance]. *)
Inductive Variant :=
| TextElement (text : string)
| TableElement (num_rows num_cols : Z) (table_cells : list Cell)
| FigureElement.

Record PageElement := {
  el_label : string;
  el_page_no : Z;
  el_cluster : Cluster;
  el_variant : Variant
}.

Record PageSize := { width : Qc; height : Qc }.

Record Page := { pg_page_no : Z; pg_page_hash : string; pg_size : PageSize }.

Record AssembledUnit := { elements : list PageElement }.

(** ** Output data model (docling_core.types) *)

Record PageReference := { pr_hash : string; pr_page : Z; pr_model : string }.

Record DsFileInfoObject := {
  filename : string;
  fi_document_hash : option string;
  num_pages : option Z;
  page_hashes : list PageReference
}.

Record Prov := { pv_bbox : DsBoundingBox; pv_page : Z; pv_span : Z * Z }.

Record BaseText := {
  bt_text : string;
  bt_obj_type : option string;
  bt_name : string;
  bt_prov : list Prov
}.

Record Ref := { rf_name : string; rf_obj_type : option string; ref : string }.

(** A node of [main_text]: an inline text or a reference. *)
Inductive MainText :=
| NText (x : BaseText)
| NRef (x : Ref).

Record TableCell := {
  tc_text : string;
  tc_bbox : option DsBoundingBox;
  tc_spans : list (Z * Z);
  tc_obj_type : string
}.

(** The schema table stores the grid by value. *)
Record DsSchemaTable := {
  tb_num_cols : Z;
  tb_num_rows : Z;
  tb_obj_type : option string;
  data : list (list TableCell);
  tb_prov : list Prov
}.

Record BaseCell := { bc_prov : list Prov; bc_obj_type : option string }.

Record PageDimensions := { pd_page : Z; pd_height : Qc; pd_width : Qc }.

Record DsDocumentDescription := { logs : list string }.

Record DsDocument := {
  ds_name : string;
  description : DsDocumentDescription;
  file_info : DsFileInfoObject;
  ds_main_text : list MainText;
  ds_tables : list DsSchemaTable;
  ds_figures : list BaseCell;
  page_dimensions : list PageDimensions
}.

(** ** The documents *)

Record DocumentLimits := { max_num_pages : Z; max_file_size : Z }.

(** A [PurePath] as its components; [name] is the last one. *)
Definition PurePath : Type := list string.
Definition name (p : PurePath) : string := List.last p "".

Record InputDocument := {
  file : option PurePath;
  document_hash : option string;
  valid : bool;
  limits : DocumentLimits;
  filesize : option Z;
  page_count : option Z
}.

(** The states named where [status] is declared. *)
Inductive ConversionStatus := PENDING | FAILURE | SUCCESS.

Record ConvertedDocument := {
  input : InputDocument;
  status : ConversionStatus;
  errors : list (list (string * string));
  pages : list Page;
  assembled : option AssembledUnit;
  output : option DsDocument
}.

(** ** The monad of the method body *)

(** The store: the receiver [self] and the next fresh object identity. *)
Record Store := { receiver : ConvertedDocument; next_id : nat }.

Definition M (A : Type) : Type := Store → result A * Store.

Global Instance M_ret : MRet M := λ A a s, (Ok a, s).
Global Instance M_bind : MBind M := λ A B f m s,
  match m s with
  | (Ok a, s') => f a s'
  | (Raise e, s') => (Raise e, s')
  end.

Definition raise {A} (e : exn) : M A := λ s, (Raise e, s).

Definition get_self : M ConvertedDocument := λ s, (Ok (receiver s), s).

(** A constructor call: a fresh instance holding [v]. *)
Definition new {A} (v : A) : M (obj A) := λ s,
  (Ok (Obj (next_id s) v),
   {| receiver := receiver s; next_id := S (next_id s) |}).

(** [for x in xs: acc = body x acc]. *)
Fixpoint for_each {A B} (xs : list A) (body : A → B → M B) (acc : B) : M B :=
  match xs with
  | [] => mret acc
  | x :: xs' => acc' ← body x acc; for_each xs' body acc'
  end.

(** [[f x for x in xs]]. *)
Fixpoint comprehension {A B} (f : A → M B) (xs : list A) : M (list B) :=
  match xs with
  | [] => mret []
  | x :: xs' => y ← f x; ys ← comprehension f xs'; mret (y :: ys)
  end.

(** ** Python primitives *)

(** [range(lo, hi)] and [range(n)]. *)
Definition range (lo hi : Z) : list Z := seqZ lo (hi - lo).
Definition range0 (n : Z) : list Z := range 0 n.

(** The position a list of length [len] gives to index [i]: negative
    indices count from the end, anything else out of range is refused. *)
Definition py_index (len : nat) (i : Z) : option nat :=
  if decide (0 ≤ i < Z.of_nat len) then Some (Z.to_nat i)
  else if decide (- Z.of_nat len ≤ i < 0) then Some (Z.to_nat (Z.of_nat len + i))
  else None.

(** [xs[i]]. *)
Definition getitem {A} (xs : list A) (i : Z) : M A :=
  match py_index (length xs) i ≫= (xs !!.) with
  | Some x => mret x
  | None => raise IndexError
  end.

(** [xs[i] = x]. *)
Definition setitem {A} (xs : list A) (i : Z) (x : A) : M (list A) :=
  match py_index (length xs) i with
  | Some n => mret (<[n := x]> xs)
  | None => raise IndexError
  end.

(** [d[k]] on the page dictionary. *)
Definition dict_getitem (d : gmap Z Page) (k : Z) : M Page :=
  match d !! k with
  | Some p => mret p
  | None => raise (KeyError k)
  end.

(** [o.attr] where [o] may be [None]. *)
Definition deref {A} (o : option A) : M A :=
  match o with
  | Some a => mret a
  | None => raise AttributeError
  end.

(** [d.get(k)] on a dictionary literal. *)
Fixpoint dict_get (d : list (string * string)) (k : string) : option string :=
  match d with
  | [] => None
  | (k', v) :: d' => if decide (k' = k) then Some v else dict_get d' k
  end.

(** ** The label mapping *)

Definition layout_label_to_ds_type : list (string * string) :=
  [ ("Title", "title");
    ("Document Index", "table-of-path_or_stream");
    ("Section-header", "subtitle-level-1");
    ("Checkbox-Selected", "checkbox-selected");
    ("Checkbox-Unselected", "checkbox-unselected");
    ("Caption", "caption");
    ("Page-header", "page-header");
    ("Page-footer", "page-footer");
    ("Footnote", "footnote");
    ("Table", "table");
    ("Formula", "equation");
    ("List-item", "paragraph");
    ("Code", "paragraph");
    ("Picture", "figure");
    ("Text", "paragraph") ].

(** ** Table grid reconstruction (the [TableElement] branch) *)

Abbreviation Grid := (list (list (obj TableCell))).

(** The cell kind chosen by the [if]/[elif] on the two header flags. *)
Definition celltype (cell : Cell) : string :=
  if column_header cell then "col_header"
  else if row_header cell then "row_header"
  else "body".

(** The generator [make_spans], collected by [list(...)]. *)
Definition make_spans (num_rows num_cols : Z) (cell : Cell) : list (Z * Z) :=
  rspan ← range (Z.min (start_row_offset_idx cell) num_rows)
                (Z.min (end_row_offset_idx cell) num_rows);
  cspan ← range (Z.min (start_col_offset_idx cell) num_cols)
                (Z.min (end_col_offset_idx cell) num_cols);
  [(rspan, cspan)].

(** The value of the [TableCell] built for a declaration on a page of
    height [h]. *)
Definition cell_value (num_rows num_cols : Z) (h : Qc) (cell : Cell) : TableCell :=
  {| tc_text := cell_text cell;
     tc_bbox := Some (as_tuple (to_bottom_left_origin (cell_bbox cell) h));
     tc_spans := make_spans num_rows num_cols cell;
     tc_obj_type := celltype cell |}.

(** The value of the cell the grid starts with at (i, j). *)
Definition empty_cell (i j : Z) : TableCell :=
  {| tc_text := ""; tc_bbox := None; tc_spans := [(i, j)]; tc_obj_type := "body" |}.

(** [table_data[i][j] = c]; the row is updated in place. *)
Definition setitem2 (table_data : Grid) (i j : Z) (c : obj TableCell) : M Grid :=
  row ← getitem table_data i;
  row' ← setitem row j c;
  setitem table_data i row'.

(** The body of the innermost loop: one [TableCell] is constructed and
    stored at [table_data[i][j]]. *)
Definition overwrite (page_no_to_page : gmap Z Page) (page_no num_rows num_cols : Z)
    (cell : Cell) (i j : Z) (table_data : Grid) : M Grid :=
  page ← dict_getitem page_no_to_page page_no;
  c ← new (cell_value num_rows num_cols (height (pg_size page)) cell);
  setitem2 table_data i j c.

(** The two loops over the clipped row and column range of one
    declaration. *)
Definition fill_cell (page_no_to_page : gmap Z Page) (page_no num_rows num_cols : Z)
    (cell : Cell) (table_data : Grid) : M Grid :=
  for_each
    (range (Z.min (start_row_offset_idx cell) num_rows)
           (Z.min (end_row_offset_idx cell) num_rows))
    (λ i, for_each
       (range (Z.min (start_col_offset_idx cell) num_cols)
              (Z.min (end_col_offset_idx cell) num_cols))
       (λ j, overwrite page_no_to_page page_no num_rows num_cols cell i j))
    table_data.

(** The grid of empty cells, one fresh instance per position. *)
Definition init_table_data (num_rows num_cols : Z) : M Grid :=
  comprehension
    (λ i, comprehension (λ j, new (empty_cell i j)) (range0 num_cols))
    (range0 num_rows).

Definition build_table_data (page_no_to_page : gmap Z Page)
    (page_no num_rows num_cols : Z) (table_cells : list Cell) : M Grid :=
  table_data ← init_table_data num_rows num_cols;
  for_each table_cells (fill_cell page_no_to_page page_no num_rows num_cols)
    table_data.

(** The grid by value, as the schema table keeps it. *)
Definition grid_values (table_data : Grid) : list (list TableCell) :=
  map (map oval) table_data.

(** ** Routing of one element and the whole method *)

(** The three local lists of the method. *)
Record Locals := {
  main_text : list MainText;
  tables : list DsSchemaTable;
  figures : list BaseCell
}.

(** The body of the loop over [self.assembled.elements]. *)
Definition route (page_no_to_page : gmap Z Page) (element : PageElement)
    (loc : Locals) : M Locals :=
  page ← dict_getitem page_no_to_page (el_page_no element);
  let target_bbox :=
    as_tuple (to_bottom_left_origin (cl_bbox (el_cluster element))
                (height (pg_size page))) in
  let obj_type := dict_get layout_label_to_ds_type (el_label element) in
  match el_variant element with
  | TextElement text =>
      mret {| main_text := main_text loc ++
                [NText {| bt_text := text;
                          bt_obj_type := obj_type;
                          bt_name := el_label element;
                          bt_prov := [ {| pv_bbox := target_bbox;
                                          pv_page := el_page_no element;
                                          pv_span := (0, Z.of_nat (String.length text)) |} ] |}];
              tables := tables loc;
              figures := figures loc |}
  | TableElement num_rows num_cols table_cells =>
      let index := length (tables loc) in
      let ref_str := "#/tables/" +:+ pretty index in
      let main_text' := main_text loc ++
            [NRef {| rf_name := el_label element; rf_obj_type := obj_type;
                     ref := ref_str |}] in
      table_data ← build_table_data page_no_to_page (el_page_no element)
                      num_rows num_cols table_cells;
      mret {| main_text := main_text';
              tables := tables loc ++
                [ {| tb_num_cols := num_cols;
                     tb_num_rows := num_rows;
                     tb_obj_type := obj_type;
                     data := grid_values table_data;
                     tb_prov := [ {| pv_bbox := target_bbox;
                                     pv_page := el_page_no element;
                                     pv_span := (0, 0) |} ] |} ];
              figures := figures loc |}
  | FigureElement =>
      let index := length (figures loc) in
      let ref_str := "#/figures/" +:+ pretty index in
      mret {| main_text := main_text loc ++
                [NRef {| rf_name := el_label element; rf_obj_type := obj_type;
                         ref := ref_str |}];
              tables := tables loc;
              figures := figures loc ++
                [ {| bc_prov := [ {| pv_bbox := target_bbox;
                                     pv_page := el_page_no element;
                                     pv_span := (0, 0) |} ];
                     bc_obj_type := obj_type |} ] |}
  end.

(** [{p.page_no: p for p in pages}]: a later page replaces an earlier one
    with the same number. *)
Definition page_dict (pages : list Page) : gmap Z Page :=
  foldl (λ d p, <[pg_page_no p := p]> d) ∅ pages.

Definition to_ds_document : M DsDocument :=
  self ← get_self;
  let title := "" in
  let desc := {| logs := [] |} in
  let page_hashes :=
    (λ p, {| pr_hash := pg_page_hash p; pr_page := pg_page_no p;
             pr_model := "default" |}) <$> pages self in
  path ← deref (file (input self));
  let file_info :=
    {| filename := name path;
       fi_document_hash := document_hash (input self);
       num_pages := page_count (input self);
       page_hashes := page_hashes |} in
  let page_no_to_page := page_dict (pages self) in
  au ← deref (assembled self);
  loc ← for_each (elements au) (route page_no_to_page)
          {| main_text := []; tables := []; figures := [] |};
  let page_dimensions :=
    (λ p, {| pd_page := pg_page_no p; pd_height := height (pg_size p);
             pd_width := width (pg_size p) |}) <$> pages self in
  mret {| ds_name := title;
          description := desc;
          file_info := file_info;
          ds_main_text := main_text loc;
          ds_tables := tables loc;
          ds_figures := figures loc;
          page_dimensions := page_dimensions |}.

(** ** Concrete documents used in the examples *)

Definition box0 : BoundingBox :=
  {| bb_l := Qc_of_Z 10; bb_t := Qc_of_Z 20; bb_r := Qc_of_Z 110; bb_b := Qc_of_Z 70 |}.

Definition page1 : Page :=
  {| pg_page_no := 1; pg_page_hash := "h1";
     pg_size := {| width := Qc_of_Z 612; height := Qc_of_Z 792 |} |}.

Definition span (r0 r1 c0 c1 : Z) (txt : string) (ch rh : bool) : Cell :=
  {| start_row_offset_idx := r0; end_row_offset_idx := r1;
     start_col_offset_idx := c0; end_col_offset_idx := c1;
     cell_text := txt; cell_bbox := box0;
     column_header := ch; row_header := rh |}.

Definition element_of (lbl : string) (pno : Z) (v : Variant) : PageElement :=
  {| el_label := lbl; el_page_no := pno; el_cluster := {| cl_bbox := box0 |};
     el_variant := v |}.

Definition document_of (els : list PageElement) : ConvertedDocument :=
  {| input := {| file := Some ["tmp"; "a.pdf"]; document_hash := Some "abc";
                 valid := true;
                 limits := {| max_num_pages := 100; max_file_size := 1000000 |};
                 filesize := Some 1234; page_count := Some 1 |};
     status := PENDING; errors := []; pages := [page1];
     assembled := Some {| elements := els |}; output := None |}.

Definition store_of (els : list PageElement) : Store :=
  {| receiver := document_of els; next_id := 0 |}.

(** Two tables with a figure between them. *)
Definition three_elements : list PageElement :=
  [element_of "Table" 1 (TableElement 1 1 []);
   element_of "Picture" 1 FigureElement;
   element_of "Table" 1 (TableElement 0 0 [])].

(** The table of the end-to-end scenario: 2x2, one header span over all. *)
Definition table_A : list Cell := [span 0 2 0 2 "A" true false].

(** ** A program logic for the method monad *)

(** [hoare P m Q E]: run from a store satisfying [P], [m] either returns a
    value and a store satisfying [Q] or raises an exception satisfying [E].
    With [E] empty this is total correctness. *)
Definition hoare {A} (P : Store → Prop) (m : M A)
    (Q : A → Store → Prop) (E : exn → Store → Prop) : Prop :=
  ∀ s, P s →
    match m s with
    | (Ok a, s') => Q a s'
    | (Raise e, s') => E e s'
    end.

Definition no_exn : exn → Store → Prop := λ _ _, False.

(** ** Specification vocabulary *)

Definition grid_at (g : Grid) (i j : nat) : option (obj TableCell) :=
  row ← g !! i; row !! j.

(** [R] rows of [C] cells each. *)
Definition shape (g : Grid) (R C : nat) : Prop :=
  length g = R ∧ Forall (λ row, length row = C) g.

(** The pure effect of [table_data[i][j] = c] at list positions [n], [m]. *)
Definition grid_set (g : Grid) (n m : nat) (c : obj TableCell) : Grid :=
  match g !! n with
  | Some row => <[n := <[m := c]> row]> g
  | None => g
  end.

(** Position (i, j) lies in the declared row range intersected with
    [0, num_rows) and in the declared column range intersected with
    [0, num_cols). *)
Definition covers (num_rows num_cols : Z) (cell : Cell) (i j : nat) : Prop :=
  (start_row_offset_idx cell ≤ Z.of_nat i < end_row_offset_idx cell ∧
   0 ≤ Z.of_nat i < num_rows) ∧
  (start_col_offset_idx cell ≤ Z.of_nat j < end_col_offset_idx cell ∧
   0 ≤ Z.of_nat j < num_cols).

Global Instance covers_dec num_rows num_cols cell i j :
  Decision (covers num_rows num_cols cell i j).
Proof. unfold covers. apply _. Defined.

(** [updated page num_rows num_cols cell g0 s0 W g s]: starting from grid
    [g0] and store [s0], exactly the positions in [W] have been overwritten,
    each by a fresh instance holding the value built for [cell], distinct
    positions by distinct instances; the receiver is untouched. *)
Definition updated (page : Page) (num_rows num_cols : Z) (cell : Cell)
    (g0 : Grid) (s0 : Store) (W : nat → nat → Prop) (g : Grid) (s : Store)
  : Prop :=
  receiver s = receiver s0 ∧
  (next_id s0 ≤ next_id s)%nat ∧
  shape g (Z.to_nat num_rows) (Z.to_nat num_cols) ∧
  (∀ i j,
    (W i j → ∃ o, grid_at g i j = Some o ∧
        oval o = cell_value num_rows num_cols (height (pg_size page)) cell ∧
        (next_id s0 ≤ oid o < next_id s)%nat) ∧
    (¬ W i j → grid_at g i j = grid_at g0 i j)) ∧
  (∀ i j i' j' o o', W i j → W i' j' →
    grid_at g i j = Some o → grid_at g i' j' = Some o' →
    oid o = oid o' → (i, j) = (i', j')).

(** A row of the initial grid. *)
Definition init_row (num_cols i : Z) (row : list (obj TableCell)) : Prop :=
  Forall2 (λ j o, oval o = empty_cell i j) (range0 num_cols) row.

(** The last declaration of [cells] that covers (i, j), if any. *)
Definition last_cover (num_rows num_cols : Z) (cells : list Cell) (i j : nat)
  : option Cell :=
  last (filter (λ cell, covers num_rows num_cols cell i j) cells).

(** The value position (i, j) must hold once [cells] are processed. *)
Definition final_value (num_rows num_cols : Z) (h : Qc) (cells : list Cell)
    (i j : nat) : TableCell :=
  match last_cover num_rows num_cols cells i j with
  | Some cell => cell_value num_rows num_cols h cell
  | None => empty_cell (Z.of_nat i) (Z.of_nat j)
  end.

Definition nonneg_start (cell : Cell) : Prop :=
  (0 ≤ start_row_offset_idx cell)%Z ∧ (0 ≤ start_col_offset_idx cell)%Z.

(** The invariant of the loop over [element.table_cells]. *)
Definition filled (s0 : Store) (num_rows num_cols : Z) (h : Qc)
    (cells : list Cell) (g : Grid) (s : Store) : Prop :=
  receiver s = receiver s0 ∧
  shape g (Z.to_nat num_rows) (Z.to_nat num_cols) ∧
  ∀ i j, Z.of_nat i < num_rows → Z.of_nat j < num_cols →
    ∃ o, grid_at g i j = Some o ∧
         oval o = final_value num_rows num_cols h cells i j.

Definition any_exn : exn → Store → Prop := λ _ _, True.

(** The element with its classification label replaced. *)
Definition relabel (lbl : string) (element : PageElement) : PageElement :=
  {| el_label := lbl; el_page_no := el_page_no element;
     el_cluster := el_cluster element; el_variant := el_variant element |}.

Definition is_Ok {A} (r : result A) : Prop :=
  match r with Ok _ => True | Raise _ => False end.

Definition empty_locals : Locals :=
  {| main_text := []; tables := []; figures := [] |}.

Definition is_table (element : PageElement) : Prop :=
  match el_variant element with TableElement _ _ _ => True | _ => False end.

Definition is_figure (element : PageElement) : Prop :=
  match el_variant element with FigureElement => True | _ => False end.

Global Instance is_table_dec element : Decision (is_table element).
Proof. unfold is_table. destruct (el_variant element); apply _. Defined.

Global Instance is_figure_dec element : Decision (is_figure element).
Proof. unfold is_figure. destruct (el_variant element); apply _. Defined.

(** The number of table (figure) elements in a list of elements. *)
Definition count_tables (els : list PageElement) : nat :=
  length (filter is_table els).
Definition count_figures (els : list PageElement) : nat :=
  length (filter is_figure els).

(** The provenance record of an element on a page. *)
Definition prov_of (page : Page) (element : PageElement) : Prov :=
  {| pv_bbox := as_tuple (to_bottom_left_origin (cl_bbox (el_cluster element))
                            (height (pg_size page)));
     pv_page := el_page_no element;
     pv_span := (0, 0) |}.

(** What the [n]-th element [element] of [els] has left in the locals:
    a reference whose index is the number of elements of the same channel
    before it, and at that index of the channel its table or figure. *)
Definition routed (page_no_to_page : gmap Z Page) (els : list PageElement)
    (loc : Locals) (n : nat) (element : PageElement) : Prop :=
  match el_variant element with
  | TextElement _ => True
  | TableElement num_rows num_cols _ =>
      main_text loc !! n =
        Some (NRef {| rf_name := el_label element;
                      rf_obj_type :=
                        dict_get layout_label_to_ds_type (el_label element);
                      ref := "#/tables/" +:+ pretty (count_tables (take n els)) |}) ∧
      ∃ t page,
        tables loc !! count_tables (take n els) = Some t ∧
        page_no_to_page !! el_page_no element = Some page ∧
        tb_num_rows t = num_rows ∧ tb_num_cols t = num_cols ∧
        tb_prov t = [prov_of page element]
  | FigureElement =>
      main_text loc !! n =
        Some (NRef {| rf_name := el_label element;
                      rf_obj_type :=
                        dict_get layout_label_to_ds_type (el_label element);
                      ref := "#/figures/" +:+ pretty (count_figures (take n els)) |}) ∧
      ∃ page,
        page_no_to_page !! el_page_no element = Some page ∧
        figures loc !! count_figures (take n els) =
          Some {| bc_prov := [prov_of page element];
                  bc_obj_type :=
                    dict_get layout_label_to_ds_type (el_label element) |}
  end.

(** The invariant of the loop over the elements. *)
Definition routed_all (page_no_to_page : gmap Z Page) (els : list PageElement)
    (loc : Locals) : Prop :=
  length (main_text loc) = length els ∧
  length (tables loc) = count_tables els ∧
  length (figures loc) = count_figures els ∧
  ∀ n element, els !! n = Some element →
    routed page_no_to_page els loc n element.

(** Stores whose receiver is [cd]. *)
Definition frame (cd : ConvertedDocument) : Store → Prop :=
  λ s, receiver s = cd.

(** [m] leaves the receiver as it found it, whether it returns or raises. *)
Definition read_only {A} (m : M A) : Prop :=
  ∀ cd, hoare (frame cd) m (λ _, frame cd) (λ _, frame cd).

(** Two outcomes from stores with the same receiver: both return, with
    results related by [R], or both raise the same exception. *)
Definition sim {A} (R : A → A → Prop) (x y : result A * Store) : Prop :=
  receiver x.2 = receiver y.2 ∧
  match x.1, y.1 with
  | Ok a, Ok b => R a b
  | Raise e, Raise e' => e = e'
  | _, _ => False
  end.

Definition indep {A} (R : A → A → Prop) (m1 m2 : M A) : Prop :=
  ∀ s1 s2, receiver s1 = receiver s2 → sim R (m1 s1) (m2 s2).

(** Cells equal by value, grids equal by value. *)
Definition same_value (o1 o2 : obj TableCell) : Prop := oval o1 = oval o2.
Definition grid_rel (g1 g2 : Grid) : Prop := Forall2 (Forall2 same_value) g1 g2.

(** ** Vocabulary for the whole document *)

(** An element the loop can process: its page has an entry in [pages] and,
    for a table, no declaration starts at a negative offset. *)
Definition well_formed (pages : list Page) (element : PageElement) : Prop :=
  el_page_no element ∈ pg_page_no <$> pages ∧
  match el_variant element with
  | TableElement _ _ table_cells => Forall nonneg_start table_cells
  | _ => True
  end.

(** The node [main_text] receives for [element]: for a text element the
    full inline node, for a table or a figure a reference with the
    element's label and mapped type. *)
Definition emitted (page_no_to_page : gmap Z Page) (element : PageElement)
    (node : MainText) : Prop :=
  ∃ page, page_no_to_page !! el_page_no element = Some page ∧
    match el_variant element with
    | TextElement text =>
        node = NText
          {| bt_text := text;
             bt_obj_type := dict_get layout_label_to_ds_type (el_label element);
             bt_name := el_label element;
             bt_prov :=
               [ {| pv_bbox :=
                      as_tuple (to_bottom_left_origin
                                  (cl_bbox (el_cluster element))
                                  (height (pg_size page)));
                    pv_page := el_page_no element;
                    pv_span := (0, Z.of_nat (String.length text)) |} ] |}
    | _ =>
        ∃ r, node = NRef
          {| rf_name := el_label element;
             rf_obj_type := dict_get layout_label_to_ds_type (el_label element);
             ref := r |}
    end.

(** The schema table appended for a table element: its grid is the one
    [build_table_data] returned, by value. *)
Definition table_built (page_no_to_page : gmap Z Page) (element : PageElement)
    (t : DsSchemaTable) : Prop :=
  ∃ page num_rows num_cols table_cells s g s',
    el_variant element = TableElement num_rows num_cols table_cells ∧
    page_no_to_page !! el_page_no element = Some page ∧
    build_table_data page_no_to_page (el_page_no element) num_rows num_cols
      table_cells s = (Ok g, s') ∧
    t = {| tb_num_cols := num_cols;
           tb_num_rows := num_rows;
           tb_obj_type := dict_get layout_label_to_ds_type (el_label element);
           data := grid_values g;
           tb_prov := [prov_of page element] |}.

(** The value at (i, j) of a grid kept by value. *)
Definition data_at (rows : list (list TableCell)) (i j : nat) : option TableCell :=
  row ← rows !! i; row !! j.

(** The grid positions the loop indices of a declaration denote under
    Python indexing, where a negative index counts from the end. *)
Definition writes (num_rows num_cols : Z) (cell : Cell) (n m : nat) : Prop :=
  ∃ i j,
    i ∈ range (Z.min (start_row_offset_idx cell) num_rows)
              (Z.min (end_row_offset_idx cell) num_rows) ∧
    j ∈ range (Z.min (start_col_offset_idx cell) num_cols)
              (Z.min (end_col_offset_idx cell) num_cols) ∧
    py_index (Z.to_nat num_rows) i = Some n ∧
    py_index (Z.to_nat num_cols) j = Some m.

(** ** Opening an input document ([InputDocument.__init__]) *)

(** The exceptions of the file layer: the two handlers of the constructor
    catch [FileNotFoundError], [OSError] and [RuntimeError]; any other
    exception, named by its class, leaves the constructor. *)
Inductive io_exn :=
| FileNotFoundError
| OSError
| RuntimeError
| Uncaught (class : string).

Inductive io_result (A : Type) :=
| IoOk (a : A)
| IoRaise (e : io_exn).
Arguments IoOk {A} a.
Arguments IoRaise {A} e.

(** The argument [path_or_stream]: a [Path], a [BytesIO] with its bytes,
    or an object of another class. *)
Inductive PathOrStream :=
| APath (path : PurePath)
| ABytesIO (content : list Byte.byte)
| AnotherObject.

(** A backend instance, as far as the constructor uses it. *)
Record PdfDocumentBackend := { backend_page_count : Z }.

(** A backend class: the call [pdf_backend(path_or_stream=...)]. *)
Definition BackendClass : Type := PathOrStream → io_result PdfDocumentBackend.

(** What the constructor takes from outside this file: the file system
    ([Path.stat]), [create_file_hash], the parsing of a file name by
    [PurePath], the default limits, the default backend class. *)
Record World := {
  stat_size : PurePath → io_result Z;
  create_file_hash : PathOrStream → io_result string;
  parse_path : string → PurePath;
  default_limits : DocumentLimits;
  PyPdfiumDocumentBackend : BackendClass
}.

(** The object under construction: the declared fields, the private
    [_backend], and the lines handed to [_log.exception]. *)
Record InputObject := {
  fields : InputDocument;
  _backend : option PdfDocumentBackend;
  logged : list string
}.

(** The monad of the constructor body: an exception keeps the fields
    assigned so far. *)
Definition Init (A : Type) : Type := InputObject → io_result A * InputObject.

Global Instance Init_ret : MRet Init := λ A a o, (IoOk a, o).
Global Instance Init_bind : MBind Init := λ A B f m o,
  match m o with
  | (IoOk a, o') => f a o'
  | (IoRaise e, o') => (IoRaise e, o')
  end.

Definition io_raise {A} (e : io_exn) : Init A := λ o, (IoRaise e, o).

(** The outcome of a call outside this file. *)
Definition call {A} (r : io_result A) : Init A := λ o, (r, o).

Definition get_fields : Init InputDocument := λ o, (IoOk (fields o), o).

Definition set_fields (f : InputDocument → InputDocument) : Init unit := λ o,
  (IoOk tt, {| fields := f (fields o); _backend := _backend o;
               logged := logged o |}).

Definition set_backend (b : PdfDocumentBackend) : Init unit := λ o,
  (IoOk tt, {| fields := fields o; _backend := Some b; logged := logged o |}).

Definition log_exception (line : string) : Init unit := λ o,
  (IoOk tt, {| fields := fields o; _backend := _backend o;
               logged := logged o ++ [line] |}).

Definition set_file (p : PurePath) (d : InputDocument) : InputDocument :=
  {| file := Some p; document_hash := document_hash d; valid := valid d;
     limits := limits d; filesize := filesize d; page_count := page_count d |}.

Definition set_filesize (n : Z) (d : InputDocument) : InputDocument :=
  {| file := file d; document_hash := document_hash d; valid := valid d;
     limits := limits d; filesize := Some n; page_count := page_count d |}.

Definition set_valid (v : bool) (d : InputDocument) : InputDocument :=
  {| file := file d; document_hash := document_hash d; valid := v;
     limits := limits d; filesize := filesize d; page_count := page_count d |}.

Definition set_document_hash (h : string) (d : InputDocument) : InputDocument :=
  {| file := file d; document_hash := Some h; valid := valid d;
     limits := limits d; filesize := filesize d; page_count := page_count d |}.

Definition set_page_count (n : Z) (d : InputDocument) : InputDocument :=
  {| file := file d; document_hash := document_hash d; valid := valid d;
     limits := limits d; filesize := filesize d; page_count := Some n |}.

(** The object after [super().__init__()] and [self.limits = limits or
    DocumentLimits()]: every other field at its declared default. *)
Definition fresh_input (w : World) (limits : option DocumentLimits) : InputObject :=
  {| fields := {| file := None; document_hash := None; valid := false;
                  limits := default (default_limits w) limits;
                  filesize := None; page_count := None |};
     _backend := None; logged := [] |}.

(** [self._backend], which may still be [None]. *)
Definition get_backend : Init PdfDocumentBackend := λ o,
  match _backend o with
  | Some b => (IoOk b, o)
  | None => (IoRaise (Uncaught "AttributeError"), o)
  end.

(** The size check written out in both branches, on the file size just
    assigned: over the limit the document is marked invalid, otherwise it
    is hashed and the backend is opened. *)
Definition check_size_and_open (w : World) (path_or_stream : PathOrStream)
    (size : Z) (pdf_backend : BackendClass) : Init unit :=
  self ← get_fields;
  if decide (size > max_file_size (limits self))
  then set_fields (set_valid false)
  else
    h ← call (create_file_hash w path_or_stream);
    set_fields (set_document_hash h);;
    b ← call (pdf_backend path_or_stream);
    set_backend b.

(** The body of the [try]. *)
Definition try_body (w : World) (path_or_stream : PathOrStream)
    (filename : option string) (pdf_backend : BackendClass) : Init unit :=
  match path_or_stream with
  | APath path =>
      set_fields (set_file path);;
      size ← call (stat_size w path);
      set_fields (set_filesize size);;
      check_size_and_open w path_or_stream size pdf_backend
  | ABytesIO content =>
      match filename with
      | Some f => set_fields (set_file (parse_path w f))
      | None => io_raise (Uncaught "TypeError")
      end;;
      set_fields (set_filesize (Z.of_nat (length content)));;
      check_size_and_open w path_or_stream (Z.of_nat (length content))
        pdf_backend
  | AnotherObject => mret tt
  end;;
  self ← get_fields;
  match document_hash self with
  | Some h =>
      if decide (h = "") then mret tt
      else
        backend ← get_backend;
        if decide (backend_page_count backend > 0) then
          set_fields (set_page_count (backend_page_count backend));;
          self ← get_fields;
          if decide (backend_page_count backend ≤ max_num_pages (limits self))
          then set_fields (set_valid true)
          else mret tt
        else mret tt
  | None => mret tt
  end.

(** The message of a handler, which reads [self.file.name]. *)
Definition log_with_file_name (before after : string) : Init unit :=
  self ← get_fields;
  match file self with
  | Some p => log_exception (before +:+ name p +:+ after)
  | None => io_raise (Uncaught "AttributeError")
  end.

(** [InputDocument(path_or_stream, filename, limits, pdf_backend)]: the
    object, or the exception that leaves the constructor. *)
Definition InputDocument_init (w : World) (path_or_stream : PathOrStream)
    (filename : option string) (limits : option DocumentLimits)
    (pdf_backend : BackendClass) : io_result InputObject :=
  match try_body w path_or_stream filename pdf_backend (fresh_input w limits) with
  | (IoOk _, o) => IoOk o
  | (IoRaise FileNotFoundError, o) | (IoRaise OSError, o) =>
      match log_with_file_name "File " " not found or cannot be opened." o with
      | (IoOk _, o') => IoOk o'
      | (IoRaise e, _) => IoRaise e
      end
  | (IoRaise RuntimeError, o) =>
      match log_with_file_name
              "An unexpected error occurred while opening the document " "" o with
      | (IoOk _, o') => IoOk o'
      | (IoRaise e, _) => IoRaise e
      end
  | (IoRaise (Uncaught c), _) => IoRaise (Uncaught c)
  end.

(** ** The conversion input ([DocumentConversionInput]) *)

(** An object of [_path_or_stream_iterator]. *)
Inductive Source :=
| SrcPath (path : PurePath)
| SrcStream (filename : string) (stream : list Byte.byte)
| SrcOther.

Record DocumentConversionInput := {
  _path_or_stream_iterator : list Source;
  dci_limits : option DocumentLimits
}.

(** The generator [docs]: the documents yielded so far and, when a
    constructor call raises, the exception that ends the iteration. *)
Fixpoint docs_from (w : World) (limits : option DocumentLimits)
    (pdf_backend : BackendClass) (objs : list Source)
  : list InputObject * option io_exn :=
  match objs with
  | [] => ([], None)
  | obj :: objs' =>
      let made :=
        match obj with
        | SrcPath path =>
            Some (InputDocument_init w (APath path) None limits pdf_backend)
        | SrcStream filename stream =>
            Some (InputDocument_init w (ABytesIO stream) (Some filename)
                    limits pdf_backend)
        | SrcOther => None
        end in
      match made with
      | Some (IoRaise e) => ([], Some e)
      | Some (IoOk o) =>
          let (rest, e) := docs_from w limits pdf_backend objs' in
          (o :: rest, e)
      | None => docs_from w limits pdf_backend objs'
      end
  end.

Definition docs (w : World) (self : DocumentConversionInput)
    (pdf_backend : option BackendClass) : list InputObject * option io_exn :=
  let pdf_backend := default (PyPdfiumDocumentBackend w) pdf_backend in
  docs_from w (dci_limits self) pdf_backend (_path_or_stream_iterator self).

(** [from_paths] and [from_streams]. *)
Definition from_paths (paths : list PurePath) (limits : option DocumentLimits)
  : DocumentConversionInput :=
  {| _path_or_stream_iterator := SrcPath <$> paths; dci_limits := limits |}.

Definition from_streams (streams : list (string * list Byte.byte))
    (limits : option DocumentLimits) : DocumentConversionInput :=
  {| _path_or_stream_iterator := (λ fs, SrcStream fs.1 fs.2) <$> streams;
     dci_limits := limits |}.

(** ** Rendering ([render_as_dict], [render_as_markdown]) *)

(** [render_as_markdown], given the exporter of the schema document. *)
Definition render_as_markdown (export_to_markdown : DsDocument → string)
  : M string :=
  self ← get_self;
  match output self with
  | Some d => mret (export_to_markdown d)
  | None => mret ""
  end.

(** [render_as_dict], given [model_dump] and the empty dictionary. *)
Definition render_as_dict {Dict : Type} (model_dump : DsDocument → Dict)
    (empty : Dict) : M Dict :=
  self ← get_self;
  match output self with
  | Some d => mret (model_dump d)
  | None => mret empty
  end.

(** A world for the examples: every file has 100 bytes, hashes to "abc"
    and opens as a 3-page document. *)
Definition world0 : World :=
  {| stat_size := λ _, IoOk 100;
     create_file_hash := λ _, IoOk "abc";
     parse_path := λ f, [f];
     default_limits := {| max_num_pages := 1000; max_file_size := 1000000 |};
     PyPdfiumDocumentBackend := λ _, IoOk {| backend_page_count := 3 |} |}.


(** The file a source is opened under, if [docs] opens it at all. *)
Definition source_file (w : World) (src : Source) : option PurePath :=
  match src with
  | SrcPath path => Some path
  | SrcStream filename _ => Some (parse_path w filename)
  | SrcOther => None
  end.

(** Neither the file system, nor hashing, nor the backend class raises an
    exception outside the three classes the constructor handles. *)
Definition handled (w : World) (pdf_backend : BackendClass) : Prop :=
  (∀ path c, stat_size w path ≠ IoRaise (Uncaught c)) ∧
  (∀ x c, create_file_hash w x ≠ IoRaise (Uncaught c)) ∧
  (∀ x c, pdf_backend x ≠ IoRaise (Uncaught c)).

(** ** Running the monad *)

Lemma run_bind {A B} (m : M A) (f : A → M B) s :
  (m ≫= f) s =
  match m s with
  | (Ok a, s') => f a s'
  | (Raise e, s') => (Raise e, s')
  end.
Proof. reflexivity. Qed.

Lemma run_ret {A} (a : A) s : (mret a : M A) s = (Ok a, s).
Proof. reflexivity. Qed.

Lemma hoare_ret {A} (P : Store → Prop) (a : A) (Q : A → Store → Prop) E :
  (∀ s, P s → Q a s) → hoare P (mret a) Q E.
Proof. intros H s Hs. rewrite run_ret. auto. Qed.

Lemma hoare_bind {A B} (P : Store → Prop) (m : M A) (f : A → M B)
    (Q : A → Store → Prop) (R : B → Store → Prop) E :
  hoare P m Q E → (∀ a, hoare (Q a) (f a) R E) → hoare P (m ≫= f) R E.
Proof.
  intros Hm Hf s Hs. rewrite run_bind. specialize (Hm s Hs).
  destruct (m s) as [[a|e] s']; [|done]. by apply Hf.
Qed.

Lemma hoare_conseq {A} (P P' : Store → Prop) (m : M A)
    (Q Q' : A → Store → Prop) (E E' : exn → Store → Prop) :
  hoare P' m Q' E' →
  (∀ s, P s → P' s) → (∀ a s, Q' a s → Q a s) → (∀ e s, E' e s → E e s) →
  hoare P m Q E.
Proof.
  intros Hm HP HQ HE s Hs. specialize (Hm s (HP s Hs)).
  destruct (m s) as [[a|e] s']; auto.
Qed.

(** The loop rule: the invariant is indexed by the items already done. *)
Lemma hoare_for_each {A B} (I : list A → B → Store → Prop) E
    (body : A → B → M B) (xs : list A) :
  (∀ pre x rest acc, xs = pre ++ x :: rest →
     hoare (I pre acc) (body x acc) (I (pre ++ [x])) E) →
  ∀ acc, hoare (I [] acc) (for_each xs body acc) (I xs) E.
Proof.
  intros Hbody.
  cut (∀ rest pre acc, xs = pre ++ rest →
         hoare (I pre acc) (for_each rest body acc) (I xs) E).
  { intros H acc. by apply (H xs []). }
  induction rest as [|x rest IH]; intros pre acc Heq; simpl.
  - rewrite app_nil_r in Heq. subst pre. apply hoare_ret. auto.
  - eapply hoare_bind; [by eapply Hbody|].
    intros acc'. apply IH. by rewrite <-app_assoc.
Qed.

(** The rule for comprehensions: the results are related to the items
    pointwise, and the invariant on the store is kept. *)
Lemma hoare_comprehension {A B} (J : Store → Prop) (R : A → B → Prop) E
    (f : A → M B) (xs : list A) :
  (∀ x, x ∈ xs → hoare J (f x) (λ y s, R x y ∧ J s) E) →
  hoare J (comprehension f xs) (λ ys s, Forall2 R xs ys ∧ J s) E.
Proof.
  induction xs as [|x xs IH]; intros Hf; simpl.
  - apply hoare_ret. auto.
  - eapply hoare_bind; [apply Hf; left|].
    intros y.
    apply (hoare_bind _ _ _ (λ ys s, (R x y ∧ Forall2 R xs ys) ∧ J s)).
    + intros s [Hy Hs].
      pose proof (IH (λ x' Hx', Hf x' (list_elem_of_further _ _ _ Hx')) s Hs) as H.
      destruct (comprehension f xs s) as [[ys|e] s']; [destruct H|]; auto.
    + intros ys. apply hoare_ret. intros s [[Hy Hys] Hs]. split; [|done].
      by constructor.
Qed.

Lemma hoare_new {A} (v : A) (P : Store → Prop) (Q : obj A → Store → Prop) E :
  (∀ s, P s → Q (Obj (next_id s) v)
                 {| receiver := receiver s; next_id := S (next_id s) |}) →
  hoare P (new v) Q E.
Proof. intros H s Hs. cbn. auto. Qed.

(** ** Grids: positions, shape, single stores *)

Lemma py_index_nonneg len i :
  0 ≤ i < Z.of_nat len → py_index len i = Some (Z.to_nat i).
Proof. intros. unfold py_index. by rewrite decide_True. Qed.

Lemma setitem2_run g i j c s :
  setitem2 g i j c s =
  (match py_index (length g) i with
   | Some n =>
       match g !! n with
       | Some row =>
           match py_index (length row) j with
           | Some m => Ok (grid_set g n m c)
           | None => Raise IndexError
           end
       | None => Raise IndexError
       end
   | None => Raise IndexError
   end, s).
Proof.
  unfold setitem2, getitem, setitem, grid_set. rewrite run_bind.
  destruct (py_index (length g) i) as [n|] eqn:Hi; simpl; [|reflexivity].
  destruct (g !! n) as [row|] eqn:Hrow; simpl; [|reflexivity].
  rewrite run_bind.
  destruct (py_index (length row) j) as [m|] eqn:Hj; reflexivity.
Qed.

Lemma shape_lookup g R C n row :
  shape g R C → g !! n = Some row → length row = C.
Proof. intros [_ Hg] Hrow. by eapply (Forall_lookup_1 _ _ _ _ Hg). Qed.

Lemma shape_grid_set g R C n m c : shape g R C → shape (grid_set g n m c) R C.
Proof.
  intros Hg. unfold grid_set. destruct (g !! n) as [row|] eqn:Hrow; [|done].
  destruct Hg as [Hlen Hall]. split; [by rewrite length_insert|].
  apply Forall_insert; [done|]. rewrite length_insert.
  by eapply (Forall_lookup_1 _ _ _ _ Hall).
Qed.

Lemma grid_at_set_eq g R C n m c :
  shape g R C → (n < R)%nat → (m < C)%nat →
  grid_at (grid_set g n m c) n m = Some c.
Proof.
  intros Hg Hn Hm. unfold grid_set, grid_at.
  destruct (g !! n) as [row|] eqn:Hrow.
  - rewrite list_lookup_insert_eq by (destruct Hg; lia). simpl.
    apply list_lookup_insert_eq. by rewrite (shape_lookup _ _ _ _ _ Hg Hrow).
  - apply lookup_ge_None in Hrow. destruct Hg. lia.
Qed.

Lemma grid_at_set_ne g n m c i j :
  (i, j) ≠ (n, m) → grid_at (grid_set g n m c) i j = grid_at g i j.
Proof.
  intros Hne. unfold grid_set, grid_at.
  destruct (g !! n) as [row|] eqn:Hrow; [|done].
  destruct (decide (i = n)) as [->|Hi].
  - rewrite Hrow. destruct (decide (n < length g)%nat).
    + rewrite list_lookup_insert_eq by done. simpl.
      apply list_lookup_insert_ne. congruence.
    + apply lookup_lt_Some in Hrow. lia.
  - by rewrite list_lookup_insert_ne.
Qed.

(** Whatever the indices, a store that succeeds changes one position. *)
Lemma grid_at_set g n m c i j o :
  grid_at (grid_set g n m c) i j = Some o → o = c ∨ grid_at g i j = Some o.
Proof.
  destruct (decide ((i, j) = (n, m))) as [[= -> ->]|Hne].
  - unfold grid_set, grid_at. destruct (g !! n) as [row|] eqn:Hrow.
    + intros H. destruct (g !! n) eqn:Hn; [|done].
      rewrite list_lookup_insert_eq in H by (by eapply lookup_lt_Some).
      simpl in H. apply list_lookup_insert_Some in H.
      destruct H as [(_ & <- & _)|[? _]]; [by left|done].
    + rewrite Hrow. auto.
  - rewrite grid_at_set_ne by done. auto.
Qed.

Lemma elem_of_range lo hi k : k ∈ range lo hi ↔ lo ≤ k < hi.
Proof. unfold range. rewrite elem_of_seqZ. lia. Qed.

(** ** One declaration: the positions it overwrites *)

Section one_declaration.
Context (page_no_to_page : gmap Z Page) (page_no : Z) (page : Page).
Context (Hpage : page_no_to_page !! page_no = Some page).
Context (num_rows num_cols : Z) (cell : Cell).
Context (g0 : Grid) (s0 : Store).

Local Abbreviation upd := (updated page num_rows num_cols cell g0 s0).

Lemma updated_ext (W W' : nat → nat → Prop) g s :
  (∀ i j, W i j ↔ W' i j) → upd W g s → upd W' g s.
Proof.
  intros HW (Hr & Hn & Hs & Hg & Hd). do 3 (split; [done|]). split.
  - intros i j. split.
    + intros HW'. apply HW in HW'. by apply Hg.
    + intros HW'. apply Hg. by rewrite HW.
  - intros i j i' j' o o' H1 H2. apply HW in H1, H2. by eapply Hd.
Qed.

Lemma overwrite_updated (W : nat → nat → Prop) g i j :
  0 ≤ i < num_rows → 0 ≤ j < num_cols →
  hoare (upd W g)
    (overwrite page_no_to_page page_no num_rows num_cols cell i j g)
    (upd (λ i' j', W i' j' ∨ (Z.of_nat i' = i ∧ Z.of_nat j' = j)))
    no_exn.
Proof.
  intros Hi Hj s (Hr & Hn & Hs & Hg & Hd).
  unfold overwrite. rewrite run_bind. unfold dict_getitem. rewrite Hpage.
  rewrite run_ret, run_bind. cbn [new]. rewrite setitem2_run.
  pose proof Hs as [Hlen Hall].
  rewrite py_index_nonneg by lia.
  destruct (g !! Z.to_nat i) as [row|] eqn:Hrow;
    [|apply lookup_ge_None in Hrow; lia].
  rewrite (shape_lookup _ _ _ _ _ Hs Hrow).
  rewrite py_index_nonneg by lia.
  set (c := Obj (next_id s) _).
  assert (grid_at (grid_set g (Z.to_nat i) (Z.to_nat j) c)
            (Z.to_nat i) (Z.to_nat j) = Some c) as Hnew
    by (eapply grid_at_set_eq; [done|lia..]).
  assert (∀ i' j' o, (i', j') ≠ (Z.to_nat i, Z.to_nat j) →
            W i' j' ∨ Z.of_nat i' = i ∧ Z.of_nat j' = j →
            grid_at g i' j' = Some o → (oid o < next_id s)%nat) as Hold.
  { intros i' j' o Hne [HW|[<- <-]] Ho; [|by rewrite !Nat2Z.id in Hne].
    destruct (proj1 (Hg i' j') HW) as (o' & ? & ? & ?).
    assert (o = o') as -> by congruence. lia. }
  split; [done|]. split; [simpl; lia|]. split; [by apply shape_grid_set|].
  split.
  - intros i' j'.
    destruct (decide ((i', j') = (Z.to_nat i, Z.to_nat j))) as [[= -> ->]|Hne].
    + split; [|intros []; right; lia].
      intros _. exists c. split; [done|]. simpl. split; [done|lia].
    + rewrite grid_at_set_ne by done. split.
      * intros [HW|[<- <-]]; [|by rewrite !Nat2Z.id in Hne].
        destruct (proj1 (Hg i' j') HW) as (o & ? & ? & ?).
        exists o. simpl. split_and!; [done..|lia|lia].
      * intros HW. apply Hg. tauto.
  - intros i1 j1 i2 j2 o1 o2 H1 H2 Ho1 Ho2 Hoid.
    destruct (decide ((i1, j1) = (Z.to_nat i, Z.to_nat j))) as [E1|N1];
      destruct (decide ((i2, j2) = (Z.to_nat i, Z.to_nat j))) as [E2|N2].
    + congruence.
    + exfalso. injection E1 as -> ->. rewrite Hnew in Ho1.
      rewrite grid_at_set_ne in Ho2 by done.
      pose proof (Hold _ _ _ N2 H2 Ho2). simplify_eq. simpl in *. lia.
    + exfalso. injection E2 as -> ->. rewrite Hnew in Ho2.
      rewrite grid_at_set_ne in Ho1 by done.
      pose proof (Hold _ _ _ N1 H1 Ho1). simplify_eq. simpl in *. lia.
    + rewrite grid_at_set_ne in Ho1, Ho2 by done.
      destruct H1 as [H1|[<- <-]]; [|by rewrite !Nat2Z.id in N1].
      destruct H2 as [H2|[<- <-]]; [|by rewrite !Nat2Z.id in N2].
      by eapply Hd.
Qed.

(** The inner loop, over the columns [cs] of row [i]. *)
Lemma row_loop_updated (W : nat → nat → Prop) (cs : list Z) i :
  0 ≤ i < num_rows → (∀ j, j ∈ cs → 0 ≤ j < num_cols) →
  ∀ g, hoare (upd W g)
    (for_each cs
       (λ j, overwrite page_no_to_page page_no num_rows num_cols cell i j) g)
    (upd (λ i' j', W i' j' ∨ (Z.of_nat i' = i ∧ Z.of_nat j' ∈ cs)))
    no_exn.
Proof.
  intros Hi Hcs g.
  pose (I := λ (pre : list Z),
    upd (λ i' j', W i' j' ∨ (Z.of_nat i' = i ∧ Z.of_nat j' ∈ pre))).
  eapply hoare_conseq;
    [apply (hoare_for_each I no_exn) with (acc := g)| |done..].
  - intros pre j rest acc Heq.
    eapply hoare_conseq; [apply overwrite_updated| |  |done].
    + done.
    + apply Hcs. subst cs. rewrite elem_of_app. right. left.
    + intros s Hs. exact Hs.
    + intros g' s. apply updated_ext. intros i' j'.
      rewrite elem_of_app, list_elem_of_singleton. tauto.
  - intros s. apply updated_ext. intros i' j'. rewrite elem_of_nil. tauto.
Qed.

(** The outer loop, over the rows [rs]. *)
Lemma rows_loop_updated (rs cs : list Z) :
  (∀ i, i ∈ rs → 0 ≤ i < num_rows) → (∀ j, j ∈ cs → 0 ≤ j < num_cols) →
  hoare (upd (λ _ _, False) g0)
    (for_each rs
       (λ i, for_each cs
          (λ j, overwrite page_no_to_page page_no num_rows num_cols cell i j))
       g0)
    (upd (λ i' j', Z.of_nat i' ∈ rs ∧ Z.of_nat j' ∈ cs))
    no_exn.
Proof.
  intros Hrs Hcs.
  pose (I := λ (pre : list Z),
    upd (λ i' j', Z.of_nat i' ∈ pre ∧ Z.of_nat j' ∈ cs)).
  eapply hoare_conseq;
    [apply (hoare_for_each I no_exn) with (acc := g0)| |done..].
  - intros pre i rest acc Heq.
    eapply hoare_conseq; [apply row_loop_updated| | |done].
    + apply Hrs. subst rs. rewrite elem_of_app. right. left.
    + done.
    + intros s Hs. exact Hs.
    + intros g' s. apply updated_ext. intros i' j'.
      rewrite elem_of_app, list_elem_of_singleton.
      split; [intros [[? ?]|[<- ?]]|intros [[?| ->] ?]]; tauto.
  - intros s. apply updated_ext. intros i' j'. rewrite elem_of_nil. tauto.
Qed.

Lemma updated_init :
  shape g0 (Z.to_nat num_rows) (Z.to_nat num_cols) →
  upd (λ _ _, False) g0 s0.
Proof.
  intros Hs. do 3 (split; [done|]). split; [by split|].
  by intros ?????? [].
Qed.

(** Total correctness of one declaration with non-negative start
    offsets: it overwrites exactly the positions it covers. *)
Lemma fill_cell_updated :
  (0 ≤ start_row_offset_idx cell)%Z → (0 ≤ start_col_offset_idx cell)%Z →
  hoare (upd (λ _ _, False) g0)
    (fill_cell page_no_to_page page_no num_rows num_cols cell g0)
    (upd (covers num_rows num_cols cell))
    no_exn.
Proof.
  intros Hr Hc. unfold fill_cell.
  eapply hoare_conseq; [apply rows_loop_updated| |  |done].
  - intros i. rewrite elem_of_range. lia.
  - intros j. rewrite elem_of_range. lia.
  - intros s Hs. exact Hs.
  - intros g' s. apply updated_ext. intros i' j'.
    rewrite !elem_of_range. unfold covers. lia.
Qed.
End one_declaration.

(** A declaration whose clipped row range or clipped column range is
    empty runs no iteration of the innermost loop: grid and store are
    returned as they are. *)
Lemma for_each_skip {A B} (xs : list A) (acc : B) s :
  for_each xs (λ _ acc', mret acc') acc s = (Ok acc, s).
Proof. induction xs as [|x xs IH]; [done|]. simpl. by rewrite run_bind, run_ret. Qed.

Lemma fill_cell_noop page_no_to_page page_no num_rows num_cols cell g s :
  Z.min (end_row_offset_idx cell) num_rows
    ≤ Z.min (start_row_offset_idx cell) num_rows ∨
  Z.min (end_col_offset_idx cell) num_cols
    ≤ Z.min (start_col_offset_idx cell) num_cols →
  fill_cell page_no_to_page page_no num_rows num_cols cell g s = (Ok g, s).
Proof.
  intros [H|H]; unfold fill_cell, range.
  - by rewrite seqZ_nil by lia.
  - rewrite (seqZ_nil (Z.min (start_col_offset_idx cell) num_cols)) by lia.
    apply for_each_skip.
Qed.

(** ** The initial grid *)

Lemma lookup_range0 n (k : nat) :
  Z.of_nat k < n → range0 n !! k = Some (Z.of_nat k).
Proof.
  intros. unfold range0, range. by rewrite lookup_seqZ_lt by lia.
Qed.

Lemma length_range0 n : length (range0 n) = Z.to_nat n.
Proof. unfold range0, range. rewrite length_seqZ. f_equal. lia. Qed.

Lemma init_table_data_spec num_rows num_cols (J : Store → Prop) :
  (∀ s, J s → J {| receiver := receiver s; next_id := S (next_id s) |}) →
  hoare J (init_table_data num_rows num_cols)
    (λ g s, Forall2 (init_row num_cols) (range0 num_rows) g ∧ J s) no_exn.
Proof.
  intros HJ. unfold init_table_data.
  apply hoare_comprehension. intros i _.
  apply hoare_comprehension. intros j _.
  apply hoare_new. intros s Hs. split; [done|]. by apply HJ.
Qed.

Lemma init_rows_shape num_rows num_cols g :
  Forall2 (init_row num_cols) (range0 num_rows) g →
  shape g (Z.to_nat num_rows) (Z.to_nat num_cols).
Proof.
  intros H. split.
  - by rewrite <-(Forall2_length _ _ _ H), length_range0.
  - apply Forall_lookup. intros n row Hrow.
    destruct (Forall2_lookup_r _ _ _ _ _ H Hrow) as (i & _ & Hi).
    by rewrite <-(Forall2_length _ _ _ Hi), length_range0.
Qed.

Lemma init_rows_at num_rows num_cols g (i j : nat) :
  Forall2 (init_row num_cols) (range0 num_rows) g →
  Z.of_nat i < num_rows → Z.of_nat j < num_cols →
  ∃ o, grid_at g i j = Some o ∧ oval o = empty_cell (Z.of_nat i) (Z.of_nat j).
Proof.
  intros H Hi Hj. unfold grid_at.
  destruct (Forall2_lookup_l _ _ _ _ _ H (lookup_range0 _ _ Hi))
    as (row & -> & Hrow).
  destruct (Forall2_lookup_l _ _ _ _ _ Hrow (lookup_range0 _ _ Hj))
    as (o & Ho & Hv).
  by exists o.
Qed.

(** ** The whole list of declarations *)

Lemma last_cover_snoc num_rows num_cols cells cell i j :
  last_cover num_rows num_cols (cells ++ [cell]) i j =
  if decide (covers num_rows num_cols cell i j) then Some cell
  else last_cover num_rows num_cols cells i j.
Proof.
  unfold last_cover. rewrite filter_app, filter_cons, filter_nil.
  case_decide; [by rewrite last_snoc|by rewrite app_nil_r].
Qed.

Lemma covers_in_bounds num_rows num_cols cell i j :
  covers num_rows num_cols cell i j →
  Z.of_nat i < num_rows ∧ Z.of_nat j < num_cols.
Proof. unfold covers. lia. Qed.

Lemma build_table_data_filled page_no_to_page page_no page num_rows num_cols
    table_cells s0 :
  page_no_to_page !! page_no = Some page →
  Forall nonneg_start table_cells →
  hoare (λ s, receiver s = receiver s0)
    (build_table_data page_no_to_page page_no num_rows num_cols table_cells)
    (filled s0 num_rows num_cols (height (pg_size page)) table_cells)
    no_exn.
Proof.
  intros Hpage Hnn. unfold build_table_data.
  eapply hoare_bind.
  { apply (init_table_data_spec _ _ (λ s, receiver s = receiver s0)). auto. }
  intros g0.
  pose (I := filled s0 num_rows num_cols (height (pg_size page))).
  eapply hoare_conseq;
    [apply (hoare_for_each I no_exn) with (acc := g0)| |done..].
  - intros pre cell rest g Heq s (Hr & Hs & Hg).
    assert (nonneg_start cell) as [Hr0 Hc0].
    { rewrite Forall_forall in Hnn. apply Hnn. subst table_cells.
      rewrite elem_of_app. right. left. }
    pose proof (fill_cell_updated page_no_to_page page_no page Hpage
      num_rows num_cols cell g s Hr0 Hc0 s
      (updated_init _ _ _ _ _ _ Hs)) as H.
    destruct (fill_cell _ _ _ _ _ _ _) as [[g'|e] s']; [|done].
    destruct H as (Hr' & _ & Hs' & Hg' & _).
    split; [congruence|]. split; [done|].
    intros i j Hi Hj. unfold final_value. rewrite last_cover_snoc.
    case_decide as Hcov.
    + destruct (proj1 (Hg' i j) Hcov) as (o & ? & ? & _). by exists o.
    + rewrite (proj2 (Hg' i j) Hcov). by apply Hg.
  - intros s [Hg Hr]. split; [done|]. split; [by eapply init_rows_shape|].
    intros i j Hi Hj. by eapply init_rows_at.
Qed.

(** Exceptional outcomes excluded: the run returns. *)
Lemma hoare_returns {A} (P : Store → Prop) (m : M A) (Q : A → Store → Prop) s :
  hoare P m Q no_exn → P s → ∃ a s', m s = (Ok a, s') ∧ Q a s'.
Proof.
  intros Hm Hs. specialize (Hm s Hs).
  destruct (m s) as [[a|e] s']; [by exists a, s'|done].
Qed.

Lemma shape_concat (g : Grid) R C : shape g R C → length (concat g) = (R * C)%nat.
Proof.
  intros [<- Hall]. induction Hall as [|row g Hrow _ IH]; [done|].
  simpl. rewrite length_app, IH, Hrow. done.
Qed.

Lemma shape_grid_at (g : Grid) R C i j :
  shape g R C → is_Some (grid_at g i j) ↔ (i < R)%nat ∧ (j < C)%nat.
Proof.
  intros Hg. unfold grid_at. destruct (g !! i) as [row|] eqn:Hrow; simpl.
  - rewrite lookup_lt_is_Some, (shape_lookup _ _ _ _ _ Hg Hrow).
    apply lookup_lt_Some in Hrow. destruct Hg. lia.
  - apply lookup_ge_None in Hrow. destruct Hg as [Hlen _].
    split; [by intros [? ?]|lia].
Qed.

Lemma last_cover_None num_rows num_cols cells i j :
  (∀ cell, cell ∈ cells → ¬ covers num_rows num_cols cell i j) →
  last_cover num_rows num_cols cells i j = None.
Proof.
  intros H. unfold last_cover.
  replace (filter _ cells) with (@nil Cell); [done|].
  induction cells as [|cell cells IH]; [done|].
  rewrite filter_cons, decide_False by (apply H; left).
  apply IH. intros c Hc. apply H. by right.
Qed.

Lemma last_cover_last num_rows num_cols pre cell post i j :
  covers num_rows num_cols cell i j →
  (∀ c, c ∈ post → ¬ covers num_rows num_cols c i j) →
  last_cover num_rows num_cols (pre ++ cell :: post) i j = Some cell.
Proof.
  intros Hc Hpost. unfold last_cover.
  rewrite filter_app, filter_cons, decide_True by done.
  replace (filter _ post) with (@nil Cell); [by rewrite last_snoc|].
  induction post as [|c post IH]; [done|].
  rewrite filter_cons, decide_False by (apply Hpost; left).
  apply IH. intros c' Hc'. apply Hpost. by right.
Qed.

(** ** Properties of the reconstructed grid *)

(** C1, as amended: for declared row and column counts r, c >= 0 and every
    list of declarations whose start offsets are non-negative (end offsets
    arbitrary, possibly over-declared), the reconstruction returns a grid of
    exactly r rows of exactly c cells each, r*c positions in all; the
    positions that hold a cell are exactly the (i, j) with i < r and j < c,
    and a position covered by no declaration holds an empty body cell with
    text "" and span set [(i, j)]. *)
Theorem grid_coverage page_no_to_page page_no page num_rows num_cols
    table_cells s :
  page_no_to_page !! page_no = Some page →
  0 ≤ num_rows → 0 ≤ num_cols →
  Forall nonneg_start table_cells →
  ∃ g s',
    build_table_data page_no_to_page page_no num_rows num_cols table_cells s
      = (Ok g, s') ∧
    length g = Z.to_nat num_rows ∧
    Forall (λ row, length row = Z.to_nat num_cols) g ∧
    Z.of_nat (length (concat g)) = num_rows * num_cols ∧
    (∀ i j, is_Some (grid_at g i j) ↔
              Z.of_nat i < num_rows ∧ Z.of_nat j < num_cols) ∧
    (∀ i j, Z.of_nat i < num_rows → Z.of_nat j < num_cols →
       (∀ cell, cell ∈ table_cells → ¬ covers num_rows num_cols cell i j) →
       ∃ o, grid_at g i j = Some o ∧
            oval o = empty_cell (Z.of_nat i) (Z.of_nat j) ∧
            tc_text (oval o) = "" ∧
            tc_spans (oval o) = [(Z.of_nat i, Z.of_nat j)] ∧
            tc_obj_type (oval o) = "body").
Proof.
  intros Hpage Hr Hc Hnn.
  destruct (hoare_returns _ _ _ s
    (build_table_data_filled _ _ _ num_rows num_cols _ s Hpage Hnn) eq_refl)
    as (g & s' & Hrun & _ & Hs & Hg).
  exists g, s'. split; [done|]. split; [apply Hs|]. split; [apply Hs|].
  split; [rewrite (shape_concat _ _ _ Hs); lia|].
  split; [intros i j; rewrite (shape_grid_at _ _ _ _ _ Hs); lia|].
  intros i j Hi Hj Hnone. destruct (Hg i j Hi Hj) as (o & Ho & Hv).
  unfold final_value in Hv. rewrite last_cover_None in Hv by done.
  exists o. by rewrite Hv.
Qed.

Lemma grid_coverage_witness :
  ∃ g s', build_table_data (page_dict [page1]) 1 2 3
            [span 0 1 0 5 "x" false false] (store_of []) = (Ok g, s') ∧
          length g = 2%nat.
Proof.
  destruct (grid_coverage (page_dict [page1]) 1 page1 2 3
              [span 0 1 0 5 "x" false false] (store_of []))
    as (g & s' & H & Hlen & _).
  - reflexivity.
  - lia.
  - lia.
  - repeat constructor; simpl; lia.
  - by exists g, s'.
Defined.

(** C1 fails as stated: on a 1x1 table a declaration with start row -5
    makes the store [table_data[-5][0] = ...] raise, so no grid is
    produced at all. *)
Lemma grid_coverage_counterexample :
  fst (build_table_data (page_dict [page1]) 1 1 1
         [span (-5) 1 0 1 "w" false false] (store_of []))
  = Raise IndexError.
Proof. vm_compute. reflexivity. Qed.

(** C3, as amended: a declaration whose start offsets are non-negative
    overwrites exactly the positions of its declared row range intersected
    with [0, rows) crossed with its declared column range intersected with
    [0, cols), whatever its end offsets, and never raises; every other
    position keeps the instance it held. When the clipped row range or the
    clipped column range is empty (start_row=5, end_row=10 on 3 rows) the
    grid and the store are returned unchanged. *)
Theorem clipping page_no_to_page page_no page num_rows num_cols cell g s :
  page_no_to_page !! page_no = Some page →
  shape g (Z.to_nat num_rows) (Z.to_nat num_cols) →
  nonneg_start cell →
  ∃ g' s',
    fill_cell page_no_to_page page_no num_rows num_cols cell g s = (Ok g', s') ∧
    shape g' (Z.to_nat num_rows) (Z.to_nat num_cols) ∧
    (∀ i j, covers num_rows num_cols cell i j →
       ∃ o, grid_at g' i j = Some o ∧ (next_id s ≤ oid o)%nat ∧
            oval o = cell_value num_rows num_cols (height (pg_size page)) cell) ∧
    (∀ i j, ¬ covers num_rows num_cols cell i j →
       grid_at g' i j = grid_at g i j) ∧
    ((∀ i j, ¬ covers num_rows num_cols cell i j) → g' = g ∧ s' = s) ∧
    (num_rows ≤ start_row_offset_idx cell → g' = g ∧ s' = s).
Proof.
  intros Hpage Hs [Hr0 Hc0].
  destruct (hoare_returns _ _ _ s
    (fill_cell_updated _ _ _ Hpage num_rows num_cols cell g s Hr0 Hc0)
    (updated_init _ _ _ _ _ _ Hs)) as (g' & s' & Hrun & _ & _ & Hs' & Hg & _).
  exists g', s'. split; [done|]. split; [done|].
  split; [|split; [|split]].
  - intros i j Hcov. destruct (proj1 (Hg i j) Hcov) as (o & ? & ? & ?).
    exists o. split_and!; [done|lia|done].
  - intros i j Hcov. by apply Hg.
  - intros Hnone.
    assert (Z.min (end_row_offset_idx cell) num_rows
              ≤ Z.min (start_row_offset_idx cell) num_rows ∨
            Z.min (end_col_offset_idx cell) num_cols
              ≤ Z.min (start_col_offset_idx cell) num_cols) as Hempty.
    { destruct (decide (Z.min (end_row_offset_idx cell) num_rows
                          ≤ Z.min (start_row_offset_idx cell) num_rows));
        [by left|right].
      destruct (decide (Z.min (end_col_offset_idx cell) num_cols
                          ≤ Z.min (start_col_offset_idx cell) num_cols));
        [done|exfalso].
      apply (Hnone (Z.to_nat (start_row_offset_idx cell))
                   (Z.to_nat (start_col_offset_idx cell))).
      unfold covers. lia. }
    rewrite fill_cell_noop in Hrun by done. by simplify_eq.
  - intros Hout. rewrite fill_cell_noop in Hrun by lia. by simplify_eq.
Qed.

Lemma clipping_witness :
  fill_cell (page_dict [page1]) 1 3 1 (span 5 10 0 1 "x" false false)
    [[Obj 0%nat (empty_cell 0 0)]; [Obj 1%nat (empty_cell 1 0)];
     [Obj 2%nat (empty_cell 2 0)]]
    {| receiver := document_of []; next_id := 3 |}
  = (Ok [[Obj 0%nat (empty_cell 0 0)]; [Obj 1%nat (empty_cell 1 0)];
         [Obj 2%nat (empty_cell 2 0)]],
     {| receiver := document_of []; next_id := 3 |}).
Proof.
  destruct (clipping (page_dict [page1]) 1 page1 3 1
              (span 5 10 0 1 "x" false false)
              [[Obj 0%nat (empty_cell 0 0)]; [Obj 1%nat (empty_cell 1 0)];
               [Obj 2%nat (empty_cell 2 0)]]
              {| receiver := document_of []; next_id := 3 |})
    as (g' & s' & Hrun & _ & _ & _ & _ & Hout).
  - reflexivity.
  - split; [reflexivity|]. repeat constructor.
  - split; simpl; lia.
  - destruct Hout as [-> ->]; [simpl; lia|]. exact Hrun.
Defined.

(** C3 fails as stated: on a 2x1 table the declaration with row range
    [-1, 0) covers no position of the grid, yet the store
    [table_data[-1][0] = ...] replaces the cell of the last row. *)
Lemma clipping_counterexample :
  (∀ i j, ¬ covers 2 1 (span (-1) 0 0 1 "w" false false) i j) ∧
  fst (fill_cell (page_dict [page1]) 1 2 1 (span (-1) 0 0 1 "w" false false)
         [[Obj 0%nat (empty_cell 0 0)]; [Obj 1%nat (empty_cell 1 0)]]
         {| receiver := document_of []; next_id := 2 |})
  = Ok [[Obj 0%nat (empty_cell 0 0)];
        [Obj 2%nat (cell_value 2 1 (Qc_of_Z 792)
                      (span (-1) 0 0 1 "w" false false))]].
Proof.
  split; [intros i j; unfold covers; simpl; lia|].
  vm_compute. reflexivity.
Qed.

(** C2, as amended: when two declarations of the list both cover a grid
    position and no declaration after the later one covers it, the cell at
    that position in the final grid carries the text, kind and normalised
    bounding box of the later one (start offsets non-negative); in general
    the position carries those of the last declaration that covers it. *)
Theorem last_write_wins page_no_to_page page_no page num_rows num_cols
    l1 a l2 b l3 i j s :
  page_no_to_page !! page_no = Some page →
  Forall nonneg_start (l1 ++ a :: l2 ++ b :: l3) →
  covers num_rows num_cols a i j →
  covers num_rows num_cols b i j →
  (∀ c, c ∈ l3 → ¬ covers num_rows num_cols c i j) →
  ∃ g s' o,
    build_table_data page_no_to_page page_no num_rows num_cols
      (l1 ++ a :: l2 ++ b :: l3) s = (Ok g, s') ∧
    grid_at g i j = Some o ∧
    tc_text (oval o) = cell_text b ∧
    tc_obj_type (oval o) = celltype b ∧
    tc_bbox (oval o) =
      Some (as_tuple (to_bottom_left_origin (cell_bbox b) (height (pg_size page)))).
Proof.
  intros Hpage Hnn Ha Hb Hl3.
  destruct (hoare_returns _ _ _ s
    (build_table_data_filled _ _ _ num_rows num_cols _ s Hpage Hnn) eq_refl)
    as (g & s' & Hrun & _ & Hs & Hg).
  destruct (covers_in_bounds _ _ _ _ _ Hb) as [Hi Hj].
  destruct (Hg i j Hi Hj) as (o & Ho & Hv).
  exists g, s', o. split; [done|]. split; [done|].
  unfold final_value in Hv.
  replace (l1 ++ a :: l2 ++ b :: l3) with ((l1 ++ a :: l2) ++ b :: l3) in Hv
    by (by rewrite <-app_assoc).
  rewrite last_cover_last in Hv by done. by rewrite Hv.
Qed.

Lemma last_write_wins_witness :
  ∃ g s' o,
    build_table_data (page_dict [page1]) 1 1 1
      ([] ++ span 0 1 0 1 "a" false false :: [] ++
             span 0 1 0 1 "b" true false :: []) (store_of []) = (Ok g, s') ∧
    grid_at g 0 0 = Some o ∧ tc_text (oval o) = "b".
Proof.
  destruct (last_write_wins (page_dict [page1]) 1 page1 1 1
              [] (span 0 1 0 1 "a" false false)
              [] (span 0 1 0 1 "b" true false) [] 0 0 (store_of []))
    as (g & s' & o & Hrun & Ho & Ht & _).
  - reflexivity.
  - repeat constructor; simpl; lia.
  - unfold covers; simpl; lia.
  - unfold covers; simpl; lia.
  - intros c Hc. by apply elem_of_nil in Hc.
  - by exists g, s', o.
Defined.

(** C2 fails as stated: of the three declarations "a", "b", "c" that all
    cover (0, 0), "a" and "b" are two declarations covering it and "b" is
    the later of the two, but the final grid holds the text of "c". It also
    fails when the third declaration has row range [-1, 0): it covers no
    position, yet its store at row index -1 replaces the cell at (0, 0). *)
Lemma last_write_wins_counterexample :
  covers 1 1 (span 0 1 0 1 "a" false false) 0 0 ∧
  covers 1 1 (span 0 1 0 1 "b" false false) 0 0 ∧
  match fst (build_table_data (page_dict [page1]) 1 1 1
               [span 0 1 0 1 "a" false false; span 0 1 0 1 "b" false false;
                span 0 1 0 1 "c" false false] (store_of [])) with
  | Ok g => (λ o, tc_text (oval o)) <$> grid_at g 0 0
  | Raise _ => None
  end = Some "c" ∧
  (∀ i j, ¬ covers 1 1 (span (-1) 0 0 1 "c" false false) i j) ∧
  match fst (build_table_data (page_dict [page1]) 1 1 1
               [span 0 1 0 1 "a" false false; span 0 1 0 1 "b" false false;
                span (-1) 0 0 1 "c" false false] (store_of [])) with
  | Ok g => (λ o, tc_text (oval o)) <$> grid_at g 0 0
  | Raise _ => None
  end = Some "c".
Proof.
  split; [unfold covers; simpl; lia|].
  split; [unfold covers; simpl; lia|].
  split; [vm_compute; reflexivity|].
  split; [intros i j; unfold covers; simpl; lia|].
  vm_compute. reflexivity.
Qed.

Lemma elem_of_make_spans num_rows num_cols cell r c :
  (r, c) ∈ make_spans num_rows num_cols cell ↔
  (Z.min (start_row_offset_idx cell) num_rows ≤ r
     < Z.min (end_row_offset_idx cell) num_rows) ∧
  (Z.min (start_col_offset_idx cell) num_cols ≤ c
     < Z.min (end_col_offset_idx cell) num_cols).
Proof.
  unfold make_spans. rewrite list_elem_of_bind. split.
  - intros (r' & Hin & Hr'). apply list_elem_of_bind in Hin.
    destruct Hin as (c' & Hin & Hc'). apply list_elem_of_singleton in Hin.
    apply elem_of_range in Hr', Hc'. by simplify_eq.
  - intros [Hr Hc]. exists r. rewrite elem_of_range. split; [|done].
    apply list_elem_of_bind. exists c. rewrite elem_of_range.
    split; [by apply list_elem_of_singleton|done].
Qed.

Lemma covers_make_spans num_rows num_cols cell i j :
  nonneg_start cell →
  (Z.of_nat i, Z.of_nat j) ∈ make_spans num_rows num_cols cell ↔
  covers num_rows num_cols cell i j.
Proof.
  intros [Hr Hc]. rewrite elem_of_make_spans. unfold covers. lia.
Qed.

(** One declaration with non-negative start offsets: every covered
    position receives an instance of its own, all with the same value. *)
Lemma fill_cell_instances page_no_to_page page_no page num_rows num_cols
    cell g s :
  page_no_to_page !! page_no = Some page →
  shape g (Z.to_nat num_rows) (Z.to_nat num_cols) →
  nonneg_start cell →
  ∃ g' s',
    fill_cell page_no_to_page page_no num_rows num_cols cell g s = (Ok g', s') ∧
    shape g' (Z.to_nat num_rows) (Z.to_nat num_cols) ∧
    (∀ i j, covers num_rows num_cols cell i j →
       ∃ o, grid_at g' i j = Some o ∧
            oval o = cell_value num_rows num_cols (height (pg_size page)) cell) ∧
    (∀ i j i' j' o o',
       covers num_rows num_cols cell i j →
       covers num_rows num_cols cell i' j' →
       grid_at g' i j = Some o → grid_at g' i' j' = Some o' →
       oid o = oid o' → (i, j) = (i', j')).
Proof.
  intros Hpage Hs [Hr0 Hc0].
  destruct (hoare_returns _ _ _ s
    (fill_cell_updated _ _ _ Hpage num_rows num_cols cell g s Hr0 Hc0)
    (updated_init _ _ _ _ _ _ Hs)) as (g' & s' & Hrun & _ & _ & Hs' & Hg & Hd).
  exists g', s'. split; [done|]. split; [done|]. split; [|done].
  intros i j Hcov. destruct (proj1 (Hg i j) Hcov) as (o & ? & ? & _).
  by exists o.
Qed.

(** C5, as amended: in the 2x2 scenario with the single column-header
    declaration "A" over rows 0-1 and columns 0-1, every one of the four
    positions holds a cell with text "A", kind column-header and span set
    [(0,0); (0,1); (1,0); (1,1)], and no empty cell remains; the four cells
    are equal in content but are four separately constructed instances,
    one per position. In general a declaration with non-negative start
    offsets leaves at every position of its clipped range an instance of
    its own whose span set lists exactly the positions of the clipped
    range. *)
Theorem merged_span :
  (∀ page_no_to_page page_no page s,
     page_no_to_page !! page_no = Some page →
     ∃ g s',
       build_table_data page_no_to_page page_no 2 2 table_A s = (Ok g, s') ∧
       shape g 2 2 ∧
       (∀ i j, (i < 2)%nat → (j < 2)%nat →
          ∃ o, grid_at g i j = Some o ∧
               tc_text (oval o) = "A" ∧
               tc_obj_type (oval o) = "col_header" ∧
               tc_spans (oval o) = [(0, 0); (0, 1); (1, 0); (1, 1)]) ∧
       (∀ i j i' j' o o',
          grid_at g i j = Some o → grid_at g i' j' = Some o' →
          oid o = oid o' → (i, j) = (i', j'))) ∧
  (∀ page_no_to_page page_no page num_rows num_cols cell g s,
     page_no_to_page !! page_no = Some page →
     shape g (Z.to_nat num_rows) (Z.to_nat num_cols) →
     nonneg_start cell →
     ∃ g' s',
       fill_cell page_no_to_page page_no num_rows num_cols cell g s
         = (Ok g', s') ∧
       (∀ i j, covers num_rows num_cols cell i j →
          ∃ o, grid_at g' i j = Some o ∧
               tc_text (oval o) = cell_text cell ∧
               tc_obj_type (oval o) = celltype cell ∧
               tc_spans (oval o) = make_spans num_rows num_cols cell) ∧
       (∀ i j, (Z.of_nat i, Z.of_nat j) ∈ make_spans num_rows num_cols cell ↔
               covers num_rows num_cols cell i j) ∧
       (∀ i j i' j' o o',
          covers num_rows num_cols cell i j →
          covers num_rows num_cols cell i' j' →
          grid_at g' i j = Some o → grid_at g' i' j' = Some o' →
          oid o = oid o' → (i, j) = (i', j'))).
Proof.
  split.
  - intros d pn page s Hpage. unfold build_table_data.
    destruct (hoare_returns _ _ _ s
      (init_table_data_spec 2 2 (λ _, True) (λ _ _, I)) I)
      as (g0 & s1 & Hinit & Hrows & _).
    pose proof (init_rows_shape _ _ _ Hrows) as Hs0.
    destruct (fill_cell_instances d pn page 2 2 (span 0 2 0 2 "A" true false)
                g0 s1 Hpage Hs0) as (g & s' & Hfill & Hs & Hg & Hd).
    { split; simpl; lia. }
    exists g, s'. rewrite run_bind, Hinit. unfold table_A. simpl.
    rewrite run_bind, Hfill, run_ret. split; [done|]. split; [done|].
    assert (∀ i j, (i < 2)%nat → (j < 2)%nat →
              covers 2 2 (span 0 2 0 2 "A" true false) i j) as Hcov.
    { intros i j Hi Hj. unfold covers. simpl. lia. }
    split.
    + intros i j Hi Hj. destruct (Hg i j (Hcov i j Hi Hj)) as (o & Ho & Hv).
      exists o. rewrite Hv. done.
    + intros i j i' j' o o' Ho Ho'.
      destruct (proj1 (shape_grid_at _ _ _ i j Hs) (mk_is_Some _ _ Ho)).
      destruct (proj1 (shape_grid_at _ _ _ i' j' Hs) (mk_is_Some _ _ Ho')).
      eapply Hd; eauto.
  - intros d pn page num_rows num_cols cell g s Hpage Hs Hnn.
    destruct (fill_cell_instances d pn page num_rows num_cols cell g s
                Hpage Hs Hnn) as (g' & s' & Hfill & _ & Hg & Hd).
    exists g', s'. split; [done|]. split; [|split; [|done]].
    + intros i j Hcov. destruct (Hg i j Hcov) as (o & Ho & Hv).
      exists o. by rewrite Hv.
    + intros i j. by apply covers_make_spans.
Qed.

Lemma merged_span_witness :
  ∃ g s',
    build_table_data (page_dict [page1]) 1 2 2 table_A (store_of [])
      = (Ok g, s') ∧ shape g 2 2.
Proof.
  destruct (proj1 merged_span (page_dict [page1]) 1 page1 (store_of []))
    as (g & s' & Hrun & Hs & _).
  - reflexivity.
  - by exists g, s'.
Defined.

(** C5 fails as stated: in the scenario the four positions do not
    reference one shared cell; the instances at (0,0), (0,1), (1,0) and
    (1,1) are the fifth to eighth [TableCell] constructed, each its own.
    And with a negative start offset the span set of the cells written is
    not the list of grid positions of the clipped range: for rows [-1, 1)
    on a 2x1 table it contains the pair (-1, 0). *)
Lemma merged_span_counterexample :
  match fst (build_table_data (page_dict [page1]) 1 2 2 table_A (store_of []))
  with
  | Ok g => map (map oid) g
  | Raise _ => []
  end = [[4%nat; 5%nat]; [6%nat; 7%nat]] ∧
  match fst (build_table_data (page_dict [page1]) 1 2 1
               [span (-1) 1 0 1 "A" true false] (store_of []))
  with
  | Ok g => map (map (λ o, tc_spans (oval o))) g
  | Raise _ => []
  end = [[[(-1, 0); (0, 0)]]; [[(-1, 0); (0, 0)]]].
Proof. split; vm_compute; reflexivity. Qed.

(** ** The kind of a written cell *)

(** Whatever the offsets, a position of the grid after one declaration
    holds either the instance it held before or a cell built for the
    declaration. *)
Lemma fill_cell_writes page_no_to_page page_no num_rows num_cols cell g0 :
  hoare (λ _, True)
    (fill_cell page_no_to_page page_no num_rows num_cols cell g0)
    (λ g' _, ∀ i j o, grid_at g' i j = Some o →
       grid_at g0 i j = Some o ∨
       ∃ page, page_no_to_page !! page_no = Some page ∧
         oval o = cell_value num_rows num_cols (height (pg_size page)) cell)
    any_exn.
Proof.
  pose (Inv := λ (g : Grid) (_ : Store), ∀ i j o, grid_at g i j = Some o →
       grid_at g0 i j = Some o ∨
       ∃ page, page_no_to_page !! page_no = Some page ∧
         oval o = cell_value num_rows num_cols (height (pg_size page)) cell).
  unfold fill_cell.
  eapply hoare_conseq;
    [apply (hoare_for_each (λ _, Inv) any_exn) with (acc := g0)| |done..].
  - intros _ i _ g _.
    eapply hoare_conseq;
      [apply (hoare_for_each (λ _, Inv) any_exn) with (acc := g)|done..].
    intros _ j _ g1 _ s Hinv. unfold overwrite, dict_getitem.
    rewrite run_bind.
    destruct (page_no_to_page !! page_no) as [page|] eqn:Hpage; [|done].
    rewrite run_ret, run_bind. cbn [new]. rewrite setitem2_run.
    destruct (py_index (length g1) i) as [n|]; [|done].
    destruct (g1 !! n) as [row|]; [|done].
    destruct (py_index (length row) j) as [m|]; [|done].
    intros i' j' o Ho. apply grid_at_set in Ho as [->|Ho]; [|by apply Hinv].
    right. by exists page.
  - intros s _ i j o Ho. by left.
Qed.

(** C9: the kind of the cell a declaration writes into the grid is
    column-header if its column-header flag is set (whatever the row-header
    flag), else row-header if its row-header flag is set, else body; with
    both flags set it is column-header. *)
Theorem cell_kind page_no_to_page page_no num_rows num_cols cell g s g' s' :
  fill_cell page_no_to_page page_no num_rows num_cols cell g s = (Ok g', s') →
  (∀ i j o, grid_at g' i j = Some o → grid_at g i j ≠ Some o →
     tc_obj_type (oval o) =
       if column_header cell then "col_header"
       else if row_header cell then "row_header"
       else "body") ∧
  (column_header cell = true → celltype cell = "col_header") ∧
  (column_header cell = false → row_header cell = true →
     celltype cell = "row_header") ∧
  (column_header cell = false → row_header cell = false →
     celltype cell = "body").
Proof.
  intros Hrun. split; [|unfold celltype; by split_and!; intros -> ; try intros ->].
  intros i j o Ho Hne.
  pose proof (fill_cell_writes page_no_to_page page_no num_rows num_cols
                cell g s I) as H.
  rewrite Hrun in H. destruct (H i j o Ho) as [?|(page & _ & ->)]; done.
Qed.

Lemma cell_kind_witness :
  tc_obj_type (cell_value 1 1 (Qc_of_Z 792) (span 0 1 0 1 "k" true true))
  = "col_header".
Proof.
  refine (proj1 (cell_kind (page_dict [page1]) 1 1 1
                   (span 0 1 0 1 "k" true true)
                   [[Obj 0%nat (empty_cell 0 0)]]
                   {| receiver := document_of []; next_id := 1 |}
                   [[Obj 1%nat (cell_value 1 1 (Qc_of_Z 792)
                                  (span 0 1 0 1 "k" true true))]]
                   {| receiver := document_of []; next_id := 2 |} _)
            0%nat 0%nat
            (Obj 1%nat (cell_value 1 1 (Qc_of_Z 792)
                          (span 0 1 0 1 "k" true true))) _ _).
  - vm_compute. reflexivity.
  - reflexivity.
  - intros [=].
Defined.

(** ** Coordinate normalisation *)

(** C7: normalisation maps (left, top, right, bottom) to
    (left, pageHeight - bottom, right, pageHeight - top), leaves left and
    right unchanged, and applied twice with the same page height gives the
    box back; this holds for every page height, in particular for h > 0. *)
Theorem normalize_involutive (bbox : BoundingBox) (h : Qc) :
  as_tuple (to_bottom_left_origin bbox h)
    = (bb_l bbox, (h - bb_b bbox)%Qc, bb_r bbox, (h - bb_t bbox)%Qc) ∧
  bb_l (to_bottom_left_origin bbox h) = bb_l bbox ∧
  bb_r (to_bottom_left_origin bbox h) = bb_r bbox ∧
  to_bottom_left_origin (to_bottom_left_origin bbox h) h = bbox.
Proof.
  split_and!; [done..|].
  destruct bbox as [l t r b]. unfold to_bottom_left_origin. simpl.
  f_equal; ring.
Qed.

(** ** The label mapping *)

Lemma dict_get_None d k : k ∉ d.*1 → dict_get d k = None.
Proof.
  induction d as [|[k' v] d IH]; [done|]. simpl. intros Hk.
  apply not_elem_of_cons in Hk as [Hne Hk].
  rewrite decide_False by done. by apply IH.
Qed.

(** C8: every label of the mapping table yields its documented semantic
    type ("Code" gives "paragraph", "Document Index" gives
    "table-of-path_or_stream"), a label outside the table yields no type,
    the node an element emits carries the type looked up for its label and
    goes to the channel of its structural variant, and whether routing
    succeeds does not depend on the label. *)
Theorem label_mapping :
  (∀ k v, (k, v) ∈ layout_label_to_ds_type →
     dict_get layout_label_to_ds_type k = Some v) ∧
  dict_get layout_label_to_ds_type "Code" = Some "paragraph" ∧
  dict_get layout_label_to_ds_type "Document Index"
    = Some "table-of-path_or_stream" ∧
  (∀ lbl, lbl ∉ layout_label_to_ds_type.*1 →
     dict_get layout_label_to_ds_type lbl = None) ∧
  dict_get layout_label_to_ds_type "Unknown-Foo" = None ∧
  (∀ page_no_to_page element loc s loc' s',
     route page_no_to_page element loc s = (Ok loc', s') →
     match el_variant element with
     | TextElement text =>
         (∃ prov, main_text loc' = main_text loc ++
            [NText {| bt_text := text;
                      bt_obj_type :=
                        dict_get layout_label_to_ds_type (el_label element);
                      bt_name := el_label element;
                      bt_prov := prov |}]) ∧
         tables loc' = tables loc ∧ figures loc' = figures loc
     | TableElement _ _ _ =>
         (∃ r, main_text loc' = main_text loc ++
            [NRef {| rf_name := el_label element;
                     rf_obj_type :=
                       dict_get layout_label_to_ds_type (el_label element);
                     ref := r |}]) ∧
         (∃ t, tables loc' = tables loc ++ [t] ∧
               tb_obj_type t =
                 dict_get layout_label_to_ds_type (el_label element)) ∧
         figures loc' = figures loc
     | FigureElement =>
         (∃ r, main_text loc' = main_text loc ++
            [NRef {| rf_name := el_label element;
                     rf_obj_type :=
                       dict_get layout_label_to_ds_type (el_label element);
                     ref := r |}]) ∧
         tables loc' = tables loc ∧
         (∃ c, figures loc' = figures loc ++ [c] ∧
               bc_obj_type c =
                 dict_get layout_label_to_ds_type (el_label element))
     end) ∧
  (∀ page_no_to_page element lbl loc s,
     is_Ok (fst (route page_no_to_page (relabel lbl element) loc s)) ↔
     is_Ok (fst (route page_no_to_page element loc s))).
Proof.
  split_and!; try reflexivity.
  - intros k v Hin. unfold layout_label_to_ds_type in Hin.
    repeat (apply elem_of_cons in Hin as [[= -> ->]|Hin]; [reflexivity|]).
    by apply elem_of_nil in Hin.
  - apply dict_get_None.
  - intros d element loc s loc' s'. unfold route, dict_getitem.
    rewrite run_bind.
    destruct (d !! el_page_no element) as [page|]; [|done].
    rewrite run_ret. destruct (el_variant element) as [text|R C cells|].
    + rewrite run_ret. intros [= <- <-]. simpl. eauto.
    + rewrite run_bind.
      destruct (build_table_data _ _ _ _ _ _) as [[g|e] s1]; [|done].
      rewrite run_ret. intros [= <- <-]. simpl. eauto 10.
    + rewrite run_ret. intros [= <- <-]. simpl. eauto 10.
  - intros d element lbl loc s. unfold route, relabel, dict_getitem. simpl.
    rewrite !run_bind.
    destruct (d !! el_page_no element) as [page|]; [|done].
    rewrite !run_ret. destruct (el_variant element) as [text|R C cells|].
    + by rewrite !run_ret.
    + rewrite !run_bind.
      by destruct (build_table_data _ _ _ _ _ _) as [[g|e] s1].
    + by rewrite !run_ret.
Qed.

Lemma label_mapping_witness :
  ∃ loc', fst (route (page_dict [page1])
                 (element_of "Unknown-Foo" 1 (TextElement "x=1"))
                 {| main_text := []; tables := []; figures := [] |}
                 (store_of [])) = Ok loc' ∧
          tables loc' = [] ∧ figures loc' = [].
Proof.
  eexists. split; [vm_compute; reflexivity|].
  refine (proj2 (proj1 (proj2 (proj2 (proj2 (proj2 (proj2 label_mapping)))))
            (page_dict [page1])
            (element_of "Unknown-Foo" 1 (TextElement "x=1"))
            {| main_text := []; tables := []; figures := [] |}
            (store_of []) _ (store_of []) _)).
  vm_compute. reflexivity.
Defined.

(** ** The whole method *)

(** The run of the method, by cases on what it meets. *)
Lemma to_ds_document_run s :
  to_ds_document s =
  match file (input (receiver s)) with
  | None => (Raise AttributeError, s)
  | Some path =>
      match assembled (receiver s) with
      | None => (Raise AttributeError, s)
      | Some au =>
          match for_each (elements au)
                  (route (page_dict (pages (receiver s)))) empty_locals s with
          | (Ok loc, s') =>
              (Ok {| ds_name := "";
                     description := {| logs := [] |};
                     file_info :=
                       {| filename := name path;
                          fi_document_hash := document_hash (input (receiver s));
                          num_pages := page_count (input (receiver s));
                          page_hashes :=
                            (λ p, {| pr_hash := pg_page_hash p;
                                     pr_page := pg_page_no p;
                                     pr_model := "default" |})
                              <$> pages (receiver s) |};
                     ds_main_text := main_text loc;
                     ds_tables := tables loc;
                     ds_figures := figures loc;
                     page_dimensions :=
                       (λ p, {| pd_page := pg_page_no p;
                                pd_height := height (pg_size p);
                                pd_width := width (pg_size p) |})
                         <$> pages (receiver s) |}, s')
          | (Raise e, s') => (Raise e, s')
          end
      end
  end.
Proof.
  unfold to_ds_document, mbind, M_bind, get_self, deref, mret, M_ret, raise,
    empty_locals.
  destruct (file (input (receiver s))) as [path|]; [|reflexivity].
  destruct (assembled (receiver s)) as [au|]; [|reflexivity].
  destruct (for_each _ _ _ _) as [[loc|e] s']; reflexivity.
Qed.

Lemma page_dict_lookup pages n :
  is_Some (page_dict pages !! n) ↔ n ∈ pg_page_no <$> pages.
Proof.
  unfold page_dict.
  cut (∀ d : gmap Z Page,
         is_Some (foldl (λ d p, <[pg_page_no p := p]> d) d pages !! n) ↔
         is_Some (d !! n) ∨ n ∈ pg_page_no <$> pages).
  { intros H. rewrite H, lookup_empty, is_Some_alt. tauto. }
  induction pages as [|p pages IH]; intros d; simpl.
  - rewrite elem_of_nil. tauto.
  - rewrite IH, elem_of_cons, lookup_insert_is_Some.
    destruct (decide (pg_page_no p = n)) as [Heq|Hne]; [by intuition eauto|].
    split; [intros [[?|[? ?]]|?]|intros [?|[?|?]]]; by intuition eauto.
Qed.

(** ** Exceptions of the table reconstruction *)

(** With the page of the element in the dictionary, reconstruction raises
    nothing but [IndexError]. *)
Lemma build_table_data_exn page_no_to_page page_no page num_rows num_cols
    table_cells :
  page_no_to_page !! page_no = Some page →
  hoare (λ _, True)
    (build_table_data page_no_to_page page_no num_rows num_cols table_cells)
    (λ _ _, True) (λ e _, e = IndexError).
Proof.
  intros Hpage. unfold build_table_data.
  apply (hoare_bind _ _ _ (λ _ _, True)).
  { eapply hoare_conseq;
      [apply (init_table_data_spec _ _ (λ _, True))|done..]. done. }
  intros g0.
  apply (hoare_for_each (λ _ _ _, True)). intros _ cell _ g _.
  unfold fill_cell.
  apply (hoare_for_each (λ _ _ _, True)). intros _ i _ g1 _.
  apply (hoare_for_each (λ _ _ _, True)). intros _ j _ g2 _ s _.
  unfold overwrite, dict_getitem. rewrite run_bind, Hpage, run_ret, run_bind.
  cbn [new]. rewrite setitem2_run.
  destruct (py_index (length g2) i) as [n|]; [|done].
  destruct (g2 !! n) as [row|]; [|done].
  by destruct (py_index (length row) j).
Qed.

Lemma route_exn page_no_to_page element loc :
  hoare (λ _, True) (route page_no_to_page element loc)
    (λ _ _, is_Some (page_no_to_page !! el_page_no element))
    (λ e _, is_Some (page_no_to_page !! el_page_no element) → e = IndexError).
Proof.
  intros s _. unfold route, dict_getitem. rewrite run_bind.
  destruct (page_no_to_page !! el_page_no element) as [page|] eqn:Hpage;
    [|by intros [? ?]].
  rewrite run_ret. destruct (el_variant element) as [text|R C cells|].
  - by rewrite run_ret.
  - rewrite run_bind.
    pose proof (build_table_data_exn _ _ _ R C cells Hpage s I) as H.
    destruct (build_table_data _ _ _ _ _ _) as [[g|e] s1]; [by rewrite run_ret|].
    done.
  - by rewrite run_ret.
Qed.

(** C6: if an element references a page number with no entry in [pages],
    the method raises and returns no document; when every element's page
    number has an entry, the method raises no [KeyError]. *)
Theorem missing_page_fatal s au :
  assembled (receiver s) = Some au →
  ((∃ element, element ∈ elements au ∧
      el_page_no element ∉ pg_page_no <$> pages (receiver s)) →
   ∃ e, fst (to_ds_document s) = Raise e) ∧
  ((∀ element, element ∈ elements au →
      el_page_no element ∈ pg_page_no <$> pages (receiver s)) →
   ∀ k, fst (to_ds_document s) ≠ Raise (KeyError k)).
Proof.
  intros Hau. rewrite to_ds_document_run, Hau.
  destruct (file (input (receiver s))) as [path|]; [|split; [by eauto|done]].
  set (d := page_dict (pages (receiver s))).
  split.
  - intros (bad & Hin & Hbad).
    assert (d !! el_page_no bad = None) as Hnone.
    { apply eq_None_not_Some. unfold d. by rewrite page_dict_lookup. }
    destruct (for_each _ _ _ _) as [[loc|e] s'] eqn:Hrun; [|by eauto].
    exfalso.
    assert (Forall (λ el, is_Some (d !! el_page_no el)) (elements au)) as Hall.
    { pose proof (hoare_for_each
        (λ pre _ _, Forall (λ el, is_Some (d !! el_page_no el)) pre)
        any_exn (route d) (elements au)) as H.
      assert (∀ pre x rest acc, elements au = pre ++ x :: rest →
        hoare (λ _, Forall (λ el, is_Some (d !! el_page_no el)) pre)
          (route d x acc)
          (λ _ _, Forall (λ el, is_Some (d !! el_page_no el)) (pre ++ [x]))
          any_exn) as Hstep.
      { intros pre x rest acc _ s0 Hpre.
        pose proof (route_exn d x acc s0 I) as Hx.
        destruct (route d x acc s0) as [[loc0|e0] s1]; [|done].
        apply Forall_app. split; [done|]. by apply Forall_singleton. }
      specialize (H Hstep empty_locals s (Forall_nil_2 _)).
      by rewrite Hrun in H. }
    rewrite Forall_forall in Hall. specialize (Hall bad Hin).
    rewrite Hnone in Hall. by destruct Hall.
  - intros Hall k.
    pose proof (hoare_for_each (λ _ _ _, True) (λ e _, e = IndexError)
                  (route d) (elements au)) as H.
    assert (∀ pre x rest acc, elements au = pre ++ x :: rest →
      hoare (λ _, True) (route d x acc) (λ _ _, True)
        (λ e _, e = IndexError)) as Hstep.
    { intros pre x rest acc Heq s0 _.
      pose proof (route_exn d x acc s0 I) as Hx.
      destruct (route d x acc s0) as [[loc0|e0] s1]; [done|].
      apply Hx. apply page_dict_lookup. apply Hall. rewrite Heq.
      rewrite elem_of_app. right. left. }
    specialize (H Hstep empty_locals s I).
    destruct (for_each _ _ _ _) as [[loc|e] s']; [done|]. simpl.
    by subst e.
Qed.

Lemma missing_page_fatal_witness :
  ∃ e, fst (to_ds_document
              (store_of [element_of "Text" 2 (TextElement "t")])) = Raise e.
Proof.
  apply (proj1 (missing_page_fatal
                  (store_of [element_of "Text" 2 (TextElement "t")])
                  {| elements := [element_of "Text" 2 (TextElement "t")] |}
                  eq_refl)).
  exists (element_of "Text" 2 (TextElement "t")). split; [left|].
  simpl. intros H. apply list_elem_of_singleton in H. discriminate H.
Defined.

(** ** Reference paths *)

Lemma count_tables_snoc els x :
  count_tables (els ++ [x]) =
  (count_tables els + if decide (is_table x) then 1 else 0)%nat.
Proof.
  unfold count_tables. rewrite filter_app, length_app, filter_cons, filter_nil.
  by case_decide.
Qed.

Lemma count_figures_snoc els x :
  count_figures (els ++ [x]) =
  (count_figures els + if decide (is_figure x) then 1 else 0)%nat.
Proof.
  unfold count_figures. rewrite filter_app, length_app, filter_cons, filter_nil.
  by case_decide.
Qed.

(** An element already routed stays routed when the lists grow. *)
Lemma routed_mono d els x loc loc' n element mt ts fs :
  els !! n = Some element →
  routed_all d els loc →
  main_text loc' = main_text loc ++ mt →
  tables loc' = tables loc ++ ts →
  figures loc' = figures loc ++ fs →
  routed d els loc n element → routed d (els ++ [x]) loc' n element.
Proof.
  intros Hn (Hmt & Hts & Hfs & _) Emt Ets Efs. unfold routed.
  rewrite Emt, Ets, Efs.
  pose proof (lookup_lt_Some _ _ _ Hn) as Hlt.
  rewrite take_app_le by lia.
  assert ((count_tables (take n els) < count_tables els)%nat ∨ ¬ is_table element)
    as Htab.
  { destruct (decide (is_table element)) as [Ht|]; [left|by right].
    rewrite <-(take_drop n els) at 2. unfold count_tables.
    rewrite filter_app, length_app. rewrite (drop_S _ _ _ Hn), filter_cons.
    rewrite decide_True by done. simpl. lia. }
  assert ((count_figures (take n els) < count_figures els)%nat ∨ ¬ is_figure element)
    as Hfig.
  { destruct (decide (is_figure element)) as [Ht|]; [left|by right].
    rewrite <-(take_drop n els) at 2. unfold count_figures.
    rewrite filter_app, length_app. rewrite (drop_S _ _ _ Hn), filter_cons.
    rewrite decide_True by done. simpl. lia. }
  unfold is_table, is_figure in Htab, Hfig.
  destruct (el_variant element) as [text|R C cells|]; [done|..].
  - intros [H1 (t & page & H2 & H3)]. split.
    + by rewrite lookup_app_l by lia.
    + exists t, page. rewrite lookup_app_l by (destruct Htab; [lia|tauto]).
      done.
  - intros [H1 (page & H2 & H3)]. split.
    + by rewrite lookup_app_l by lia.
    + exists page. rewrite lookup_app_l by (destruct Hfig; [lia|tauto]).
      done.
Qed.

Lemma route_routed d els x loc :
  hoare (λ _, routed_all d els loc) (route d x loc)
    (λ loc' _, routed_all d (els ++ [x]) loc') any_exn.
Proof.
  intros s Hall. pose proof Hall as (Hmt & Hts & Hfs & Hel).
  unfold route, dict_getitem. rewrite run_bind.
  destruct (d !! el_page_no x) as [page|] eqn:Hpage; [|done].
  rewrite run_ret.
  assert (∀ loc' mt tb fg,
    main_text loc' = main_text loc ++ [mt] →
    tables loc' = tables loc ++ tb →
    figures loc' = figures loc ++ fg →
    length tb = (if decide (is_table x) then 1 else 0)%nat →
    length fg = (if decide (is_figure x) then 1 else 0)%nat →
    routed d (els ++ [x]) loc' (length els) x →
    routed_all d (els ++ [x]) loc') as Hstep.
  { intros loc' mt tb fg Emt Etb Efg Ltb Lfg Hx.
    split; [by rewrite Emt, !length_app, Hmt|].
    split; [by rewrite Etb, length_app, count_tables_snoc, Hts, Ltb|].
    split; [by rewrite Efg, length_app, count_figures_snoc, Hfs, Lfg|].
    intros n element Hn. apply lookup_snoc_Some in Hn as [[Hlt Hn]|[-> <-]].
    - eapply routed_mono; eauto.
    - done. }
  unfold routed in Hstep. rewrite take_app_length in Hstep.
  assert (∀ A (l : list A), l = l ++ []) as Hnil
    by (intros; by rewrite app_nil_r).
  destruct (el_variant x) as [text|R C cells|] eqn:Hvar.
  - rewrite run_ret.
    eapply Hstep with (tb := []) (fg := []);
      [reflexivity|apply Hnil|apply Hnil| | |exact I].
    + rewrite decide_False; [done|]. unfold is_table. rewrite Hvar. tauto.
    + rewrite decide_False; [done|]. unfold is_figure. rewrite Hvar. tauto.
  - rewrite run_bind.
    destruct (build_table_data _ _ _ _ _ _) as [[g|e] s1]; [|done].
    rewrite run_ret.
    eapply Hstep with (fg := []);
      [reflexivity|reflexivity|apply Hnil| | |].
    + rewrite decide_True; [done|]. unfold is_table. rewrite Hvar. tauto.
    + rewrite decide_False; [done|]. unfold is_figure. rewrite Hvar. tauto.
    + cbn [main_text tables figures]. rewrite <-Hts. split.
      * apply list_lookup_middle. done.
      * eexists _, page. split; [apply list_lookup_middle; done|]. done.
  - rewrite run_ret.
    eapply Hstep with (tb := []);
      [reflexivity|apply Hnil|reflexivity| | |].
    + rewrite decide_False; [done|]. unfold is_table. rewrite Hvar. tauto.
    + rewrite decide_True; [done|]. unfold is_figure. rewrite Hvar. tauto.
    + cbn [main_text tables figures]. rewrite <-Hfs. split.
      * apply list_lookup_middle. done.
      * exists page. split; [done|]. apply list_lookup_middle. done.
Qed.

Lemma routed_all_nil d : routed_all d [] empty_locals.
Proof. by repeat split. Qed.

Lemma count_tables_all els n :
  (∀ element, element ∈ els → is_table element) → (n ≤ length els)%nat →
  count_tables (take n els) = n.
Proof.
  intros Hall Hn. unfold count_tables.
  rewrite <-(length_take_le els n) at 2 by done.
  assert (∀ element, element ∈ take n els → is_table element) as Htake.
  { intros element Hin. apply Hall. apply elem_of_take in Hin as (i & Hi & _).
    by eapply list_elem_of_lookup_2. }
  induction (take n els) as [|x l IH]; [done|].
  rewrite filter_cons, decide_True by (apply Htake; left).
  simpl. f_equal. apply IH. intros element Hin. apply Htake. by right.
Qed.

Lemma count_figures_all els n :
  (∀ element, element ∈ els → is_figure element) → (n ≤ length els)%nat →
  count_figures (take n els) = n.
Proof.
  intros Hall Hn. unfold count_figures.
  rewrite <-(length_take_le els n) at 2 by done.
  assert (∀ element, element ∈ take n els → is_figure element) as Htake.
  { intros element Hin. apply Hall. apply elem_of_take in Hin as (i & Hi & _).
    by eapply list_elem_of_lookup_2. }
  induction (take n els) as [|x l IH]; [done|].
  rewrite filter_cons, decide_True by (apply Htake; left).
  simpl. f_equal. apply IH. intros element Hin. apply Htake. by right.
Qed.

(** C4: in a document the method returns, the reference node emitted for
    a table element carries the path "#/tables/k" where k is the number of
    table elements before it, and the table reconstructed for that element
    sits at index k of the tables list; so N table elements routed in
    sequence get "#/tables/0" to "#/tables/N-1" in order. The same holds
    for figure elements and "#/figures/k". *)
Theorem reference_stability s s' doc au :
  assembled (receiver s) = Some au →
  to_ds_document s = (Ok doc, s') →
  length (ds_main_text doc) = length (elements au) ∧
  length (ds_tables doc) = count_tables (elements au) ∧
  length (ds_figures doc) = count_figures (elements au) ∧
  (∀ n element, elements au !! n = Some element →
    match el_variant element with
    | TextElement _ => True
    | TableElement num_rows num_cols _ =>
        ds_main_text doc !! n =
          Some (NRef {| rf_name := el_label element;
                        rf_obj_type :=
                          dict_get layout_label_to_ds_type (el_label element);
                        ref := "#/tables/" +:+
                               pretty (count_tables (take n (elements au))) |}) ∧
        ∃ t page,
          ds_tables doc !! count_tables (take n (elements au)) = Some t ∧
          page_dict (pages (receiver s)) !! el_page_no element = Some page ∧
          tb_num_rows t = num_rows ∧ tb_num_cols t = num_cols ∧
          tb_prov t = [prov_of page element]
    | FigureElement =>
        ds_main_text doc !! n =
          Some (NRef {| rf_name := el_label element;
                        rf_obj_type :=
                          dict_get layout_label_to_ds_type (el_label element);
                        ref := "#/figures/" +:+
                               pretty (count_figures (take n (elements au))) |}) ∧
        ∃ page,
          page_dict (pages (receiver s)) !! el_page_no element = Some page ∧
          ds_figures doc !! count_figures (take n (elements au)) =
            Some {| bc_prov := [prov_of page element];
                    bc_obj_type :=
                      dict_get layout_label_to_ds_type (el_label element) |}
    end) ∧
  ((∀ element, element ∈ elements au → is_table element) →
   ∀ n element, elements au !! n = Some element →
     ds_main_text doc !! n =
       Some (NRef {| rf_name := el_label element;
                     rf_obj_type :=
                       dict_get layout_label_to_ds_type (el_label element);
                     ref := "#/tables/" +:+ pretty n |}) ∧
     is_Some (ds_tables doc !! n)) ∧
  ((∀ element, element ∈ elements au → is_figure element) →
   ∀ n element, elements au !! n = Some element →
     ds_main_text doc !! n =
       Some (NRef {| rf_name := el_label element;
                     rf_obj_type :=
                       dict_get layout_label_to_ds_type (el_label element);
                     ref := "#/figures/" +:+ pretty n |}) ∧
     is_Some (ds_figures doc !! n)).
Proof.
  intros Hau. rewrite to_ds_document_run, Hau.
  destruct (file (input (receiver s))) as [path|]; [|done].
  set (d := page_dict (pages (receiver s))).
  pose proof (hoare_for_each (λ pre loc _, routed_all d pre loc) any_exn
    (route d) (elements au)
    (λ pre x _ acc _, route_routed d pre x acc)
    empty_locals s (routed_all_nil d)) as H.
  destruct (for_each _ _ _ _) as [[loc|e] s1]; [|done].
  intros [= <- <-]. simpl. destruct H as (Hmt & Hts & Hfs & Hel).
  split_and!; try done.
  - intros Hall n element Hn. specialize (Hel n element Hn).
    pose proof (Hall element (list_elem_of_lookup_2 _ _ _ Hn)) as Ht.
    pose proof (lookup_lt_Some _ _ _ Hn) as Hlt.
    unfold routed in Hel. unfold is_table in Ht.
    rewrite (count_tables_all _ _ Hall) in Hel by lia.
    destruct (el_variant element); try done.
    destruct Hel as [? (t & page & ? & _)]. by split.
  - intros Hall n element Hn. specialize (Hel n element Hn).
    pose proof (Hall element (list_elem_of_lookup_2 _ _ _ Hn)) as Ht.
    pose proof (lookup_lt_Some _ _ _ Hn) as Hlt.
    unfold routed in Hel. unfold is_figure in Ht.
    rewrite (count_figures_all _ _ Hall) in Hel by lia.
    destruct (el_variant element); try done.
    destruct Hel as [? (page & ? & ?)]. split; [done|]. by eexists.
Qed.

Lemma reference_stability_witness :
  ∃ doc, fst (to_ds_document (store_of three_elements)) = Ok doc ∧
         length (ds_tables doc) = 2%nat.
Proof.
  destruct (to_ds_document (store_of three_elements))
    as [[doc|e] s'] eqn:Hrun.
  - exists doc. split; [reflexivity|].
    exact (proj1 (proj2 (reference_stability (store_of three_elements) s' doc
                           {| elements := three_elements |} eq_refl Hrun))).
  - exfalso. apply (f_equal fst) in Hrun. vm_compute in Hrun. discriminate Hrun.
Defined.

(** ** The receiver is only read *)

Lemma read_only_bind {A B} (m : M A) (f : A → M B) :
  read_only m → (∀ a, read_only (f a)) → read_only (m ≫= f).
Proof. intros Hm Hf cd. eapply hoare_bind; [apply Hm|]. intros a. apply Hf. Qed.

Lemma read_only_ret {A} (a : A) : read_only (mret a).
Proof. intros cd. by apply hoare_ret. Qed.

Lemma read_only_for_each {A B} (xs : list A) (body : A → B → M B) acc :
  (∀ x acc', read_only (body x acc')) → read_only (for_each xs body acc).
Proof.
  intros Hbody cd.
  apply (hoare_for_each (λ _ _, frame cd)). intros _ x _ acc' _. apply Hbody.
Qed.

Lemma read_only_overwrite d pn R C cell i j g :
  read_only (overwrite d pn R C cell i j g).
Proof.
  intros cd s Hs. unfold overwrite, dict_getitem. rewrite run_bind.
  destruct (d !! pn) as [page|]; [|done].
  rewrite run_ret, run_bind. cbn [new]. rewrite setitem2_run.
  destruct (py_index (length g) i) as [n|]; [|done].
  destruct (g !! n) as [row|]; [|done].
  by destruct (py_index (length row) j).
Qed.

Lemma read_only_build_table_data d pn R C cells :
  read_only (build_table_data d pn R C cells).
Proof.
  unfold build_table_data. apply read_only_bind.
  - intros cd. eapply hoare_conseq;
      [apply (init_table_data_spec _ _ (frame cd))|done|by intros ?? [_ ?]|done].
    done.
  - intros g0. apply read_only_for_each. intros cell g. unfold fill_cell.
    apply read_only_for_each. intros i g1.
    apply read_only_for_each. intros j g2. apply read_only_overwrite.
Qed.

Lemma read_only_route d element loc : read_only (route d element loc).
Proof.
  unfold route. apply read_only_bind.
  - intros cd s Hs. unfold dict_getitem. by destruct (d !! _).
  - intros page. destruct (el_variant element) as [text|R C cells|].
    + apply read_only_ret.
    + apply read_only_bind; [apply read_only_build_table_data|].
      intros g. apply read_only_ret.
    + apply read_only_ret.
Qed.

Lemma read_only_to_ds_document : read_only to_ds_document.
Proof.
  unfold to_ds_document. apply read_only_bind; [by intros cd s Hs|].
  intros self. apply read_only_bind.
  { intros cd s Hs. unfold deref. by destruct (file _). }
  intros path. apply read_only_bind.
  { intros cd s Hs. unfold deref. by destruct (assembled _). }
  intros au. apply read_only_bind; [|intros loc; apply read_only_ret].
  apply read_only_for_each. intros x acc. apply read_only_route.
Qed.

(** ** The result does not depend on object identities *)

Lemma indep_ret {A} (R : A → A → Prop) a b :
  R a b → indep R (mret a) (mret b).
Proof. intros HR s1 s2 Hs. by split. Qed.

Lemma indep_bind {A B} (R : A → A → Prop) (R' : B → B → Prop)
    (m1 m2 : M A) (f1 f2 : A → M B) :
  indep R m1 m2 → (∀ a b, R a b → indep R' (f1 a) (f2 b)) →
  indep R' (m1 ≫= f1) (m2 ≫= f2).
Proof.
  intros Hm Hf s1 s2 Hs. rewrite !run_bind. specialize (Hm s1 s2 Hs).
  destruct (m1 s1) as [[a|e] s1'], (m2 s2) as [[b|e'] s2'];
    destruct Hm as [Hr HR]; simpl in *; try done.
  by apply Hf.
Qed.

Lemma indep_for_each {A B} (R : B → B → Prop) (xs : list A)
    (body1 body2 : A → B → M B) :
  (∀ x a b, R a b → indep R (body1 x a) (body2 x b)) →
  ∀ a b, R a b → indep R (for_each xs body1 a) (for_each xs body2 b).
Proof.
  intros Hbody. induction xs as [|x xs IH]; intros a b HR; simpl.
  - by apply indep_ret.
  - eapply indep_bind; [by apply Hbody|]. apply IH.
Qed.

Lemma indep_comprehension {A B} (R : B → B → Prop) (xs : list A)
    (f1 f2 : A → M B) :
  (∀ x, indep R (f1 x) (f2 x)) →
  indep (Forall2 R) (comprehension f1 xs) (comprehension f2 xs).
Proof.
  intros Hf. induction xs as [|x xs IH]; simpl.
  - by apply indep_ret.
  - eapply indep_bind; [apply Hf|]. intros y1 y2 Hy.
    eapply indep_bind; [apply IH|]. intros ys1 ys2 Hys.
    apply indep_ret. by constructor.
Qed.

Lemma indep_new (v : TableCell) : indep same_value (new v) (new v).
Proof. intros s1 s2 Hs. by split. Qed.

Lemma grid_rel_values g1 g2 : grid_rel g1 g2 → grid_values g1 = grid_values g2.
Proof.
  unfold grid_values. induction 1 as [|r1 r2 g1 g2 Hr _ IH]; [done|].
  simpl. f_equal; [|done]. induction Hr as [|o1 o2 ? ? Ho _ IHr]; [done|].
  simpl. by f_equal.
Qed.

Lemma indep_setitem2 g1 g2 i j c1 c2 :
  grid_rel g1 g2 → same_value c1 c2 →
  indep grid_rel (setitem2 g1 i j c1) (setitem2 g2 i j c2).
Proof.
  intros Hg Hc s1 s2 Hs. rewrite !setitem2_run. split; [done|]. simpl.
  rewrite <-(Forall2_length _ _ _ Hg).
  destruct (py_index (length g1) i) as [n|]; [|done].
  destruct (g1 !! n) as [row1|] eqn:Hrow1.
  - destruct (Forall2_lookup_l _ _ _ _ _ Hg Hrow1) as (row2 & Hrow2 & Hrow).
    rewrite Hrow2, <-(Forall2_length _ _ _ Hrow).
    destruct (py_index (length row1) j) as [m|]; [|done].
    unfold grid_set. rewrite Hrow1, Hrow2.
    apply Forall2_insert; [done|]. by apply Forall2_insert.
  - destruct (g2 !! n) as [row2|] eqn:Hrow2; [|done].
    destruct (Forall2_lookup_r _ _ _ _ _ Hg Hrow2) as (row1 & Hrow1' & _).
    congruence.
Qed.

Lemma indep_build_table_data d pn R C cells :
  indep grid_rel (build_table_data d pn R C cells)
    (build_table_data d pn R C cells).
Proof.
  unfold build_table_data. eapply indep_bind.
  { apply indep_comprehension. intros i. apply indep_comprehension.
    intros j. apply indep_new. }
  apply indep_for_each. intros cell g1 g2 Hg. unfold fill_cell.
  apply indep_for_each; [|done]. intros i g1' g2' Hg'.
  apply indep_for_each; [|done]. intros j g1'' g2'' Hg''.
  unfold overwrite. apply (indep_bind eq).
  { intros s1 s2 Hs. unfold dict_getitem. by destruct (d !! pn). }
  intros page ? <-. eapply indep_bind; [apply indep_new|].
  intros c1 c2 Hc. by apply indep_setitem2.
Qed.

Lemma indep_route d element loc :
  indep eq (route d element loc) (route d element loc).
Proof.
  unfold route. apply (indep_bind eq).
  { intros s1 s2 Hs. unfold dict_getitem. by destruct (d !! _). }
  intros page ? <-. destruct (el_variant element) as [text|R C cells|].
  - by apply indep_ret.
  - eapply indep_bind; [apply indep_build_table_data|].
    intros g1 g2 Hg. apply indep_ret. by rewrite (grid_rel_values _ _ Hg).
  - by apply indep_ret.
Qed.

Lemma indep_to_ds_document : indep eq to_ds_document to_ds_document.
Proof.
  intros s1 s2 Hs. rewrite !to_ds_document_run, <-Hs.
  destruct (file (input (receiver s1))) as [path|]; [|by split].
  destruct (assembled (receiver s1)) as [au|]; [|by split].
  pose proof (indep_for_each eq (elements au)
    (route (page_dict (pages (receiver s1))))
    (route (page_dict (pages (receiver s1))))
    (λ x a b Hab, eq_ind a (λ b, indep eq (route _ x a) (route _ x b))
                    (indep_route _ x a) b Hab)
    empty_locals empty_locals eq_refl s1 s2 Hs) as [Hr H].
  destruct (for_each _ _ _ s1) as [[loc1|e1] s1'],
    (for_each _ _ _ s2) as [[loc2|e2] s2']; simpl in *; try done.
  split; [done|]. simpl. by subst loc2.
Qed.

(** C10: the method never writes to the receiver: after a call, returning
    or raising, every field of the receiver (input, status, errors, pages,
    assembled with its element list, output) is what it was, and a second
    call on the resulting state has the same outcome: an equal document,
    or the same exception. *)
Theorem to_ds_document_pure s :
  receiver (to_ds_document s).2 = receiver s ∧
  input (receiver (to_ds_document s).2) = input (receiver s) ∧
  status (receiver (to_ds_document s).2) = status (receiver s) ∧
  errors (receiver (to_ds_document s).2) = errors (receiver s) ∧
  pages (receiver (to_ds_document s).2) = pages (receiver s) ∧
  assembled (receiver (to_ds_document s).2) = assembled (receiver s) ∧
  output (receiver (to_ds_document s).2) = output (receiver s) ∧
  (to_ds_document (to_ds_document s).2).1 = (to_ds_document s).1.
Proof.
  assert (receiver (to_ds_document s).2 = receiver s) as Hr.
  { pose proof (read_only_to_ds_document (receiver s) s eq_refl) as H.
    by destruct (to_ds_document s) as [[doc|e] s']. }
  rewrite Hr. split_and!; try done.
  pose proof (indep_to_ds_document s (to_ds_document s).2 (eq_sym Hr))
    as [_ H].
  destruct (to_ds_document s).1 as [doc|e],
    (to_ds_document (to_ds_document s).2).1 as [doc'|e']; try done.
  - by subst doc'.
  - by subst e'.
Qed.

(** ** Further properties of the whole method *)

Lemma for_each_app {A B} (xs ys : list A) (body : A → B → M B) acc s :
  for_each (xs ++ ys) body acc s =
  match for_each xs body acc s with
  | (Ok acc', s') => for_each ys body acc' s'
  | (Raise e, s') => (Raise e, s')
  end.
Proof.
  revert acc s. induction xs as [|x xs IH]; intros acc s; simpl; [done|].
  rewrite !run_bind. destruct (body x acc s) as [[acc'|e] s']; [apply IH|done].
Qed.

Lemma well_formed_lookup pages element :
  well_formed pages element →
  ∃ page, page_dict pages !! el_page_no element = Some page.
Proof. intros [Hin _]. by apply page_dict_lookup in Hin as [page ?]; eauto. Qed.

(** A well-formed element is routed without exception. *)
Lemma route_returns pages element loc :
  well_formed pages element →
  hoare (λ _, True) (route (page_dict pages) element loc) (λ _ _, True) no_exn.
Proof.
  intros Hwf s _. destruct (well_formed_lookup _ _ Hwf) as [page Hpage].
  destruct Hwf as [_ Hcells].
  unfold route, dict_getitem. rewrite run_bind, Hpage, run_ret.
  destruct (el_variant element) as [text|R C cells|].
  - by rewrite run_ret.
  - rewrite run_bind.
    destruct (hoare_returns _ _ _ s
      (build_table_data_filled _ _ _ R C _ s Hpage Hcells) eq_refl)
      as (g & s1 & -> & _).
    by rewrite run_ret.
  - by rewrite run_ret.
Qed.

Lemma for_each_route_returns pages els loc s :
  Forall (well_formed pages) els →
  ∃ loc' s', for_each els (route (page_dict pages)) loc s = (Ok loc', s').
Proof.
  intros Hall.
  destruct (hoare_returns (λ _, True) _ (λ _ _, True) s
    (hoare_for_each (λ _ _ _, True) no_exn (route (page_dict pages)) els
       (λ pre x rest acc Heq, route_returns pages x acc
          (proj1 (Forall_forall _ _) Hall x
             (eq_ind_r (λ l, x ∈ l)
                (proj2 (elem_of_app pre (x :: rest) x)
                   (or_intror (list_elem_of_here x rest))) Heq)))
       loc) I) as (loc' & s' & Hrun & _).
  by exists loc', s'.
Qed.

(** The method returns a document whenever the receiver has a file and an
    assembled unit, every element's page number has an entry in [pages],
    and no table declaration starts at a negative offset. *)
Theorem to_ds_document_returns s path au :
  file (input (receiver s)) = Some path →
  assembled (receiver s) = Some au →
  Forall (well_formed (pages (receiver s))) (elements au) →
  ∃ doc s', to_ds_document s = (Ok doc, s').
Proof.
  intros Hfile Hau Hall.
  destruct (for_each_route_returns _ _ empty_locals s Hall)
    as (loc & s' & Hrun).
  rewrite to_ds_document_run, Hfile, Hau, Hrun. by eexists _, _.
Qed.

Lemma to_ds_document_returns_witness :
  ∃ doc s', to_ds_document (store_of three_elements) = (Ok doc, s').
Proof.
  apply (to_ds_document_returns (store_of three_elements) ["tmp"; "a.pdf"]
           {| elements := three_elements |} eq_refl eq_refl).
  repeat constructor.
Defined.

(** The exception names the first offending element: when the elements
    before it are well formed and its page number has no entry in [pages],
    the method raises [KeyError] with that page number, whatever follows,
    and leaves the receiver as it was. *)
Theorem first_missing_page s path au pre bad rest :
  file (input (receiver s)) = Some path →
  assembled (receiver s) = Some au →
  elements au = pre ++ bad :: rest →
  Forall (well_formed (pages (receiver s))) pre →
  el_page_no bad ∉ pg_page_no <$> pages (receiver s) →
  ∃ s', to_ds_document s = (Raise (KeyError (el_page_no bad)), s') ∧
        receiver s' = receiver s.
Proof.
  intros Hfile Hau Hels Hpre Hbad.
  assert (page_dict (pages (receiver s)) !! el_page_no bad = None) as Hnone.
  { apply eq_None_not_Some. by rewrite page_dict_lookup. }
  destruct (for_each_route_returns _ _ empty_locals s Hpre)
    as (loc & s1 & Hrun).
  pose proof (read_only_for_each pre (route (page_dict (pages (receiver s))))
    empty_locals (λ x acc, read_only_route _ x acc) (receiver s) s eq_refl)
    as Hframe.
  rewrite Hrun in Hframe.
  exists s1. split; [|done].
  rewrite to_ds_document_run, Hfile, Hau, Hels, for_each_app, Hrun. simpl.
  rewrite run_bind. unfold route at 1, dict_getitem.
  by rewrite run_bind, Hnone.
Qed.

Lemma first_missing_page_witness :
  (to_ds_document
     (store_of [element_of "Text" 1 (TextElement "a");
                element_of "Text" 7 (TextElement "b");
                element_of "Text" 9 (TextElement "c")])).1
  = Raise (KeyError 7).
Proof.
  destruct (first_missing_page
    (store_of [element_of "Text" 1 (TextElement "a");
               element_of "Text" 7 (TextElement "b");
               element_of "Text" 9 (TextElement "c")])
    ["tmp"; "a.pdf"]
    {| elements := [element_of "Text" 1 (TextElement "a");
                    element_of "Text" 7 (TextElement "b");
                    element_of "Text" 9 (TextElement "c")] |}
    [element_of "Text" 1 (TextElement "a")]
    (element_of "Text" 7 (TextElement "b"))
    [element_of "Text" 9 (TextElement "c")]
    eq_refl eq_refl eq_refl) as (s' & -> & _).
  - repeat constructor.
  - simpl. intros H. apply list_elem_of_singleton in H. discriminate H.
  - reflexivity.
Defined.

(** The invariant of the element loop for nodes and tables. *)
Lemma route_emitted d element loc :
  hoare (λ _, True) (route d element loc)
    (λ loc' _, ∃ node, main_text loc' = main_text loc ++ [node] ∧
       emitted d element node ∧
       if decide (is_table element)
       then ∃ t, tables loc' = tables loc ++ [t] ∧ table_built d element t
       else tables loc' = tables loc)
    any_exn.
Proof.
  intros s _. unfold route, dict_getitem. rewrite run_bind.
  destruct (d !! el_page_no element) as [page|] eqn:Hpage; [|done].
  rewrite run_ret. unfold emitted, table_built.
  destruct (el_variant element) as [text|R C cells|] eqn:Hvar.
  - rewrite run_ret. eexists. split; [reflexivity|].
    split; [by exists page|].
    rewrite decide_False; [done|]. unfold is_table. rewrite Hvar. tauto.
  - rewrite run_bind.
    destruct (build_table_data _ _ _ _ _ _) as [[g|e] s1] eqn:Hrun; [|done].
    rewrite run_ret. eexists. split; [reflexivity|].
    split; [exists page; eauto|].
    rewrite decide_True by (unfold is_table; rewrite Hvar; tauto).
    eexists. split; [reflexivity|].
    by exists page, R, C, cells, s, g, s1.
  - rewrite run_ret. eexists. split; [reflexivity|].
    split; [exists page; eauto|].
    rewrite decide_False; [done|]. unfold is_table. rewrite Hvar. tauto.
Qed.

Lemma for_each_route_emitted d els s loc s' :
  for_each els (route d) empty_locals s = (Ok loc, s') →
  Forall2 (emitted d) els (main_text loc) ∧
  Forall2 (table_built d) (filter is_table els) (tables loc).
Proof.
  intros Hrun.
  pose proof (hoare_for_each
    (λ pre loc _, Forall2 (emitted d) pre (main_text loc) ∧
                  Forall2 (table_built d) (filter is_table pre) (tables loc))
    any_exn (route d) els) as H.
  assert (∀ pre x rest acc, els = pre ++ x :: rest →
    hoare (λ _, Forall2 (emitted d) pre (main_text acc) ∧
                Forall2 (table_built d) (filter is_table pre) (tables acc))
      (route d x acc)
      (λ acc' _, Forall2 (emitted d) (pre ++ [x]) (main_text acc') ∧
                 Forall2 (table_built d) (filter is_table (pre ++ [x]))
                   (tables acc'))
      any_exn) as Hstep.
  { intros pre x rest acc _ s0 [Hmt Htb].
    pose proof (route_emitted d x acc s0 I) as Hx.
    destruct (route d x acc s0) as [[acc'|e] s1]; [|done].
    destruct Hx as (node & -> & Hnode & Htab). split.
    - apply Forall2_app; [done|]. by constructor.
    - rewrite filter_app, filter_cons, filter_nil.
      destruct (decide (is_table x)).
      + destruct Htab as (t & -> & Ht). apply Forall2_app; [done|].
        by constructor.
      + rewrite Htab, app_nil_r. done. }
  assert (Forall2 (emitted d) [] (main_text empty_locals) ∧
          Forall2 (table_built d) (filter is_table []) (tables empty_locals))
    as Hinit by (split; constructor).
  specialize (H Hstep empty_locals s Hinit).
  by rewrite Hrun in H.
Qed.

Lemma to_ds_document_Ok s doc s' :
  to_ds_document s = (Ok doc, s') →
  ∃ path au loc,
    file (input (receiver s)) = Some path ∧
    assembled (receiver s) = Some au ∧
    for_each (elements au) (route (page_dict (pages (receiver s))))
      empty_locals s = (Ok loc, s') ∧
    ds_main_text doc = main_text loc ∧ ds_tables doc = tables loc ∧
    ds_figures doc = figures loc.
Proof.
  rewrite to_ds_document_run.
  destruct (file (input (receiver s))) as [path|]; [|done].
  destruct (assembled (receiver s)) as [au|]; [|done].
  destruct (for_each _ _ _ _) as [[loc|e] s1] eqn:Hrun; [|done].
  intros [= <- <-]. by exists path, au, loc.
Qed.

(** Reading order and text content are kept: in a returned document the
    n-th node of [main_text] is made from the n-th element, and for a text
    element it is an inline node with the element's text, its label as
    name, the mapped type, and one provenance entry with the element's
    page, the box normalised with that page's height, and the character
    span (0, len(text)). *)
Theorem text_nodes s doc s' au :
  assembled (receiver s) = Some au →
  to_ds_document s = (Ok doc, s') →
  length (ds_main_text doc) = length (elements au) ∧
  ∀ n element text,
    elements au !! n = Some element →
    el_variant element = TextElement text →
    ∃ page,
      page_dict (pages (receiver s)) !! el_page_no element = Some page ∧
      ds_main_text doc !! n = Some (NText
        {| bt_text := text;
           bt_obj_type := dict_get layout_label_to_ds_type (el_label element);
           bt_name := el_label element;
           bt_prov :=
             [ {| pv_bbox :=
                    (bb_l (cl_bbox (el_cluster element)),
                     (height (pg_size page) - bb_b (cl_bbox (el_cluster element)))%Qc,
                     bb_r (cl_bbox (el_cluster element)),
                     (height (pg_size page) - bb_t (cl_bbox (el_cluster element)))%Qc);
                  pv_page := el_page_no element;
                  pv_span := (0, Z.of_nat (String.length text)) |} ] |}).
Proof.
  intros Hau Hdoc.
  destruct (to_ds_document_Ok _ _ _ Hdoc)
    as (path & au' & loc & _ & Hau' & Hrun & -> & _).
  assert (au' = au) as -> by congruence.
  destruct (for_each_route_emitted _ _ _ _ _ Hrun) as [Hmt _].
  split; [by rewrite (Forall2_length _ _ _ Hmt)|].
  intros n element text Hn Hvar.
  destruct (Forall2_lookup_l _ _ _ _ _ Hmt Hn) as (node & Hnode & page & Hpage & Hem).
  rewrite Hvar in Hem. subst node. by exists page.
Qed.

Lemma text_nodes_witness :
  ∃ doc s',
    to_ds_document (store_of [element_of "Code" 1 (TextElement "x=1")])
      = (Ok doc, s') ∧
    length (ds_main_text doc) = 1%nat.
Proof.
  destruct (to_ds_document (store_of [element_of "Code" 1 (TextElement "x=1")]))
    as [[doc|e] s'] eqn:Hrun.
  - exists doc, s'. split; [reflexivity|].
    exact (proj1 (text_nodes
      (store_of [element_of "Code" 1 (TextElement "x=1")]) doc s'
      {| elements := [element_of "Code" 1 (TextElement "x=1")] |}
      eq_refl Hrun)).
  - exfalso. apply (f_equal fst) in Hrun. vm_compute in Hrun. discriminate Hrun.
Defined.

Lemma filter_table_lookup els n element :
  els !! n = Some element → is_table element →
  filter is_table els !! count_tables (take n els) = Some element.
Proof.
  intros Hn Ht.
  assert (filter is_table els =
          filter is_table (take n els) ++ element :: filter is_table (drop (S n) els))
    as ->.
  { rewrite <-(take_drop n els) at 1.
    by rewrite (drop_S _ _ _ Hn), filter_app, filter_cons, decide_True. }
  by apply list_lookup_middle.
Qed.

Lemma data_at_grid_values g i j :
  data_at (grid_values g) i j = oval <$> grid_at g i j.
Proof.
  unfold data_at, grid_values, grid_at.
  rewrite list_lookup_fmap. destruct (g !! i) as [row|]; simpl; [|done].
  by rewrite list_lookup_fmap.
Qed.

Lemma shape_grid_values g R C :
  shape g R C →
  length (grid_values g) = R ∧ Forall (λ row, length row = C) (grid_values g).
Proof.
  intros [Hlen Hall]. unfold grid_values. split; [by rewrite length_map|].
  apply Forall_fmap. eapply Forall_impl; [exact Hall|].
  intros row Hrow. simpl. by rewrite length_map.
Qed.

(** The grid stored in the document: for a table element whose
    declarations start at non-negative offsets, the table at the index its
    reference names has [num_rows] rows of [num_cols] cells, and the cell at
    (i, j) has the value of the last declaration covering (i, j), or is the
    empty body cell when none does. *)
Theorem table_data_values s doc s' au n element num_rows num_cols table_cells :
  assembled (receiver s) = Some au →
  to_ds_document s = (Ok doc, s') →
  elements au !! n = Some element →
  el_variant element = TableElement num_rows num_cols table_cells →
  Forall nonneg_start table_cells →
  ∃ t page,
    ds_tables doc !! count_tables (take n (elements au)) = Some t ∧
    page_dict (pages (receiver s)) !! el_page_no element = Some page ∧
    tb_num_rows t = num_rows ∧ tb_num_cols t = num_cols ∧
    length (data t) = Z.to_nat num_rows ∧
    Forall (λ row, length row = Z.to_nat num_cols) (data t) ∧
    ∀ i j, Z.of_nat i < num_rows → Z.of_nat j < num_cols →
      data_at (data t) i j =
        Some (final_value num_rows num_cols (height (pg_size page))
                table_cells i j).
Proof.
  intros Hau Hdoc Hn Hvar Hnn.
  destruct (to_ds_document_Ok _ _ _ Hdoc)
    as (path & au' & loc & _ & Hau' & Hrun & _ & -> & _).
  assert (au' = au) as -> by congruence.
  destruct (for_each_route_emitted _ _ _ _ _ Hrun) as [_ Htb].
  assert (is_table element) as Ht by (unfold is_table; by rewrite Hvar).
  destruct (Forall2_lookup_l _ _ _ _ _ Htb (filter_table_lookup _ _ _ Hn Ht))
    as (t & Hk & page & R & C & cells & s0 & g & s1 & Hvar' & Hpage & Hbuild & ->).
  rewrite Hvar in Hvar'. injection Hvar' as <- <- <-.
  eexists _, page. split; [exact Hk|]. split; [done|]. simpl.
  split; [done|]. split; [done|].
  pose proof (build_table_data_filled _ _ _ num_rows num_cols _ s0 Hpage Hnn
                s0 eq_refl) as Hfilled.
  rewrite Hbuild in Hfilled. destruct Hfilled as (_ & Hs & Hg).
  destruct (shape_grid_values _ _ _ Hs) as [Hlen Hrows].
  split; [done|]. split; [done|].
  intros i j Hi Hj. rewrite data_at_grid_values.
  destruct (Hg i j Hi Hj) as (o & -> & <-). done.
Qed.

Lemma table_data_values_witness :
  ∃ doc s' t,
    to_ds_document (store_of [element_of "Table" 1 (TableElement 2 2 table_A)])
      = (Ok doc, s') ∧
    ds_tables doc !! 0%nat = Some t ∧ length (data t) = 2%nat.
Proof.
  destruct (to_ds_document
              (store_of [element_of "Table" 1 (TableElement 2 2 table_A)]))
    as [[doc|e] s'] eqn:Hrun.
  - destruct (table_data_values
      (store_of [element_of "Table" 1 (TableElement 2 2 table_A)]) doc s'
      {| elements := [element_of "Table" 1 (TableElement 2 2 table_A)] |}
      0 (element_of "Table" 1 (TableElement 2 2 table_A)) 2 2 table_A
      eq_refl Hrun eq_refl eq_refl) as (t & page & Ht & _ & _ & _ & Hlen & _).
    + repeat constructor; simpl; lia.
    + by exists doc, s', t.
  - exfalso. apply (f_equal fst) in Hrun. vm_compute in Hrun. discriminate Hrun.
Defined.

(** ** The page dictionary *)

Lemma page_dict_snoc pages p :
  page_dict (pages ++ [p]) = <[pg_page_no p := p]> (page_dict pages).
Proof. unfold page_dict. by rewrite foldl_app. Qed.

Lemma page_dict_lookup_last pages n :
  page_dict pages !! n = last (filter (λ p, pg_page_no p = n) pages).
Proof.
  induction pages as [|p pages IH] using rev_ind; [done|].
  rewrite page_dict_snoc, filter_app, filter_cons, filter_nil.
  destruct (decide (pg_page_no p = n)) as [<-|Hne].
  - by rewrite lookup_insert_eq, last_snoc.
  - by rewrite lookup_insert_ne, app_nil_r.
Qed.

Lemma filter_page_no_absent pages n :
  n ∉ pg_page_no <$> pages → filter (λ p, pg_page_no p = n) pages = [].
Proof.
  induction pages as [|r pages IH]; [done|].
  rewrite fmap_cons. intros [Hne Hq]%not_elem_of_cons.
  rewrite filter_cons, decide_False by done. by apply IH.
Qed.

(** A page number is looked up to the last page of the list that carries
    it: a later page replaces an earlier one with the same number. With
    pairwise distinct page numbers every page is found under its number. *)
Theorem page_dict_last pages :
  (∀ n, page_dict pages !! n = last (filter (λ p, pg_page_no p = n) pages)) ∧
  (NoDup (pg_page_no <$> pages) →
   ∀ p, p ∈ pages → page_dict pages !! pg_page_no p = Some p).
Proof.
  split; [apply page_dict_lookup_last|].
  intros Hnd p Hp. rewrite page_dict_lookup_last.
  induction pages as [|q pages IH]; [by apply elem_of_nil in Hp|].
  rewrite fmap_cons in Hnd. apply NoDup_cons in Hnd as [Hq Hnd].
  rewrite filter_cons. apply elem_of_cons in Hp as [->|Hp].
  - rewrite decide_True by done. by rewrite filter_page_no_absent.
  - rewrite decide_False; [by apply IH|].
    intros Heq. apply Hq. rewrite Heq. by apply list_elem_of_fmap_2.
Qed.

Lemma page_dict_last_witness :
  page_dict [page1; {| pg_page_no := 2; pg_page_hash := "h2";
                       pg_size := pg_size page1 |}] !! 1 = Some page1.
Proof.
  refine (proj2 (page_dict_last
    [page1; {| pg_page_no := 2; pg_page_hash := "h2";
               pg_size := pg_size page1 |}]) _ page1 _).
  - simpl. apply NoDup_cons. split.
    + intros H. apply list_elem_of_singleton in H. discriminate H.
    + apply NoDup_singleton.
  - left.
Defined.

(** ** Negative offsets: wrap-around and [IndexError] *)

Lemma py_index_Some len i n :
  py_index len i = Some n →
  (n < len)%nat ∧
  (Z.of_nat n = i ∨ (i < 0 ∧ Z.of_nat n = Z.of_nat len + i)).
Proof. unfold py_index. repeat case_decide; intros ?; simplify_eq; lia. Qed.

Lemma py_index_in_range len i :
  - Z.of_nat len ≤ i < Z.of_nat len → is_Some (py_index len i).
Proof. intros. unfold py_index. repeat case_decide; eauto; lia. Qed.

Lemma py_index_out_of_range len i :
  i < - Z.of_nat len ∨ Z.of_nat len ≤ i → py_index len i = None.
Proof. intros. unfold py_index. repeat case_decide; eauto; lia. Qed.

Section one_declaration_wrap.
Context (page_no_to_page : gmap Z Page) (page_no : Z) (page : Page).
Context (Hpage : page_no_to_page !! page_no = Some page).
Context (num_rows num_cols : Z) (cell : Cell).
Context (g0 : Grid) (s0 : Store).

Local Abbreviation updw := (updated page num_rows num_cols cell g0 s0).

Lemma overwrite_updated_at (W : nat → nat → Prop) g i j n m :
  py_index (Z.to_nat num_rows) i = Some n →
  py_index (Z.to_nat num_cols) j = Some m →
  hoare (updw W g)
    (overwrite page_no_to_page page_no num_rows num_cols cell i j g)
    (updw (λ i' j', W i' j' ∨ (i' = n ∧ j' = m)))
    no_exn.
Proof.
  intros Hi Hj s (Hr & Hn & Hs & Hg & Hd).
  unfold overwrite. rewrite run_bind. unfold dict_getitem. rewrite Hpage.
  rewrite run_ret, run_bind. cbn [new]. rewrite setitem2_run.
  pose proof Hs as [Hlen Hall].
  destruct (py_index_Some _ _ _ Hi) as [Hnlt _].
  destruct (py_index_Some _ _ _ Hj) as [Hmlt _].
  rewrite Hlen, Hi.
  destruct (g !! n) as [row|] eqn:Hrow; [|apply lookup_ge_None in Hrow; lia].
  rewrite (shape_lookup _ _ _ _ _ Hs Hrow), Hj.
  set (c := Obj (next_id s) _).
  assert (grid_at (grid_set g n m c) n m = Some c) as Hnew
    by (by eapply grid_at_set_eq).
  assert (∀ i' j' o, (i', j') ≠ (n, m) →
            W i' j' ∨ i' = n ∧ j' = m →
            grid_at g i' j' = Some o → (oid o < next_id s)%nat) as Hold.
  { intros i' j' o Hne [HW|[-> ->]] Ho; [|done].
    destruct (proj1 (Hg i' j') HW) as (o' & ? & ? & ?).
    assert (o = o') as -> by congruence. lia. }
  split; [done|]. split; [simpl; lia|]. split; [by apply shape_grid_set|].
  split.
  - intros i' j'.
    destruct (decide ((i', j') = (n, m))) as [[= -> ->]|Hne].
    + split; [|intros []; by right].
      intros _. exists c. split; [done|]. simpl. split; [done|lia].
    + rewrite grid_at_set_ne by done. split.
      * intros [HW|[-> ->]]; [|done].
        destruct (proj1 (Hg i' j') HW) as (o & ? & ? & ?).
        exists o. simpl. split_and!; [done..|lia|lia].
      * intros HW. apply Hg. tauto.
  - intros i1 j1 i2 j2 o1 o2 H1 H2 Ho1 Ho2 Hoid.
    destruct (decide ((i1, j1) = (n, m))) as [E1|N1];
      destruct (decide ((i2, j2) = (n, m))) as [E2|N2].
    + congruence.
    + exfalso. injection E1 as -> ->. rewrite Hnew in Ho1.
      rewrite grid_at_set_ne in Ho2 by done.
      pose proof (Hold _ _ _ N2 H2 Ho2). simplify_eq. simpl in *. lia.
    + exfalso. injection E2 as -> ->. rewrite Hnew in Ho2.
      rewrite grid_at_set_ne in Ho1 by done.
      pose proof (Hold _ _ _ N1 H1 Ho1). simplify_eq. simpl in *. lia.
    + rewrite grid_at_set_ne in Ho1, Ho2 by done.
      destruct H1 as [H1|[-> ->]]; [|done].
      destruct H2 as [H2|[-> ->]]; [|done].
      by eapply Hd.
Qed.

Lemma row_loop_updated_at (W : nat → nat → Prop) (cs : list Z) i n :
  py_index (Z.to_nat num_rows) i = Some n →
  (∀ j, j ∈ cs → is_Some (py_index (Z.to_nat num_cols) j)) →
  ∀ g, hoare (updw W g)
    (for_each cs
       (λ j, overwrite page_no_to_page page_no num_rows num_cols cell i j) g)
    (updw (λ i' j', W i' j' ∨
             (i' = n ∧ ∃ j, j ∈ cs ∧ py_index (Z.to_nat num_cols) j = Some j')))
    no_exn.
Proof.
  intros Hi Hcs g.
  pose (I := λ (pre : list Z),
    updw (λ i' j', W i' j' ∨
            (i' = n ∧ ∃ j, j ∈ pre ∧ py_index (Z.to_nat num_cols) j = Some j'))).
  eapply hoare_conseq;
    [apply (hoare_for_each I no_exn) with (acc := g)| |done..].
  - intros pre j rest acc Heq.
    destruct (Hcs j) as [m Hm]; [subst cs; rewrite elem_of_app; right; left|].
    eapply hoare_conseq; [eapply (overwrite_updated_at _ acc i j n m Hi Hm)| | |done].
    + intros s Hs. exact Hs.
    + intros g' s. apply updated_ext. intros i' j'. split.
      * intros [[HW|(-> & j0 & Hj0 & Hm0)]|[-> ->]]; [by left|right..].
        -- split; [done|]. exists j0. rewrite elem_of_app. by split; [left|].
        -- split; [done|]. exists j. rewrite elem_of_app.
           split; [right; by apply list_elem_of_singleton|done].
      * intros [HW|(-> & j0 & Hj0 & Hm0)]; [by left; left|].
        apply elem_of_app in Hj0 as [Hj0|Hj0].
        -- left. right. split; [done|]. by exists j0.
        -- apply list_elem_of_singleton in Hj0 as ->. right.
           split; [done|]. congruence.
  - intros s. apply updated_ext. intros i' j'. split; [by left|].
    intros [?|(_ & j & Hj & _)]; [done|]. by apply elem_of_nil in Hj.
Qed.

Lemma rows_loop_updated_at (rs cs : list Z) :
  (∀ i, i ∈ rs → is_Some (py_index (Z.to_nat num_rows) i)) →
  (∀ j, j ∈ cs → is_Some (py_index (Z.to_nat num_cols) j)) →
  hoare (updw (λ _ _, False) g0)
    (for_each rs
       (λ i, for_each cs
          (λ j, overwrite page_no_to_page page_no num_rows num_cols cell i j))
       g0)
    (updw (λ i' j', ∃ i j, i ∈ rs ∧ j ∈ cs ∧
             py_index (Z.to_nat num_rows) i = Some i' ∧
             py_index (Z.to_nat num_cols) j = Some j'))
    no_exn.
Proof.
  intros Hrs Hcs.
  pose (I := λ (pre : list Z),
    updw (λ i' j', ∃ i j, i ∈ pre ∧ j ∈ cs ∧
            py_index (Z.to_nat num_rows) i = Some i' ∧
            py_index (Z.to_nat num_cols) j = Some j')).
  eapply hoare_conseq;
    [apply (hoare_for_each I no_exn) with (acc := g0)| |done..].
  - intros pre i rest acc Heq.
    destruct (Hrs i) as [n Hn]; [subst rs; rewrite elem_of_app; right; left|].
    eapply hoare_conseq; [eapply (row_loop_updated_at _ cs i n Hn Hcs acc)| | |done].
    + intros s Hs. exact Hs.
    + intros g' s. apply updated_ext. intros i' j'. split.
      * intros [(i0 & j0 & Hi0 & Hj0 & ? & ?)|(-> & j0 & Hj0 & ?)].
        -- exists i0, j0. rewrite elem_of_app. by split; [left|].
        -- exists i, j0. rewrite elem_of_app.
           split; [right; by apply list_elem_of_singleton|done].
      * intros (i0 & j0 & Hi0 & Hj0 & Hn0 & Hm0).
        apply elem_of_app in Hi0 as [Hi0|Hi0].
        -- left. by exists i0, j0.
        -- apply list_elem_of_singleton in Hi0 as ->. right.
           split; [congruence|]. by exists j0.
  - intros s. apply updated_ext. intros i' j'. split; [done|].
    intros (i & _ & Hi & _). by apply elem_of_nil in Hi.
Qed.
End one_declaration_wrap.

(** A declaration whose start offsets are not below -num_rows and
    -num_cols never raises: it overwrites exactly the positions its loop
    indices denote under Python indexing (index -1 is the last row or
    column), each with a fresh cell built for the declaration, and leaves
    every other position as it was. *)
Theorem fill_cell_wraps page_no_to_page page_no page num_rows num_cols cell g s :
  page_no_to_page !! page_no = Some page →
  shape g (Z.to_nat num_rows) (Z.to_nat num_cols) →
  - num_rows ≤ start_row_offset_idx cell →
  - num_cols ≤ start_col_offset_idx cell →
  ∃ g' s',
    fill_cell page_no_to_page page_no num_rows num_cols cell g s = (Ok g', s') ∧
    shape g' (Z.to_nat num_rows) (Z.to_nat num_cols) ∧
    (∀ n m, writes num_rows num_cols cell n m →
       ∃ o, grid_at g' n m = Some o ∧ (next_id s ≤ oid o)%nat ∧
            oval o = cell_value num_rows num_cols (height (pg_size page)) cell) ∧
    (∀ n m, ¬ writes num_rows num_cols cell n m →
       grid_at g' n m = grid_at g n m).
Proof.
  intros Hpage Hs Hr Hc.
  assert (∀ i, i ∈ range (Z.min (start_row_offset_idx cell) num_rows)
                         (Z.min (end_row_offset_idx cell) num_rows) →
               is_Some (py_index (Z.to_nat num_rows) i)) as Hrows.
  { intros i Hi. apply elem_of_range in Hi. apply py_index_in_range. lia. }
  assert (∀ j, j ∈ range (Z.min (start_col_offset_idx cell) num_cols)
                         (Z.min (end_col_offset_idx cell) num_cols) →
               is_Some (py_index (Z.to_nat num_cols) j)) as Hcols.
  { intros j Hj. apply elem_of_range in Hj. apply py_index_in_range. lia. }
  destruct (hoare_returns _ _ _ s
    (rows_loop_updated_at _ _ _ Hpage num_rows num_cols cell g s _ _
       Hrows Hcols)
    (updated_init _ _ _ _ _ _ Hs))
    as (g' & s' & Hrun & _ & _ & Hs' & Hg & _).
  exists g', s'. split; [exact Hrun|]. split; [done|]. split.
  - intros n m Hw. destruct (proj1 (Hg n m) Hw) as (o & ? & ? & ?).
    exists o. split_and!; [done|lia|done].
  - intros n m Hw. by apply Hg.
Qed.

Lemma fill_cell_wraps_witness :
  fst (fill_cell (page_dict [page1]) 1 2 1 (span (-1) 0 0 1 "w" false false)
         [[Obj 0%nat (empty_cell 0 0)]; [Obj 1%nat (empty_cell 1 0)]]
         {| receiver := document_of []; next_id := 2 |})
  = Ok [[Obj 0%nat (empty_cell 0 0)];
        [Obj 2%nat (cell_value 2 1 (Qc_of_Z 792)
                      (span (-1) 0 0 1 "w" false false))]].
Proof.
  destruct (fill_cell_wraps (page_dict [page1]) 1 page1 2 1
              (span (-1) 0 0 1 "w" false false)
              [[Obj 0%nat (empty_cell 0 0)]; [Obj 1%nat (empty_cell 1 0)]]
              {| receiver := document_of []; next_id := 2 |})
    as (g' & s' & Hrun & _).
  - reflexivity.
  - split; [reflexivity|]. repeat constructor.
  - simpl. lia.
  - simpl. lia.
  - vm_compute. reflexivity.
Defined.

Lemma fill_cell_first_store_raises page_no_to_page page_no page num_rows num_cols
    cell g s :
  page_no_to_page !! page_no = Some page →
  shape g (Z.to_nat num_rows) (Z.to_nat num_cols) →
  0 ≤ num_rows → 0 ≤ num_cols →
  Z.min (start_row_offset_idx cell) num_rows
    < Z.min (end_row_offset_idx cell) num_rows →
  Z.min (start_col_offset_idx cell) num_cols
    < Z.min (end_col_offset_idx cell) num_cols →
  start_row_offset_idx cell < - num_rows ∨
  start_col_offset_idx cell < - num_cols →
  fill_cell page_no_to_page page_no num_rows num_cols cell g s =
    (Raise IndexError,
     {| receiver := receiver s; next_id := S (next_id s) |}).
Proof.
  intros Hpage Hs HR HC Hrows Hcols Hlow. unfold fill_cell, range.
  rewrite (seqZ_cons (Z.min (start_row_offset_idx cell) num_rows)) by lia.
  rewrite (seqZ_cons (Z.min (start_col_offset_idx cell) num_cols)) by lia.
  simpl. rewrite !run_bind. unfold overwrite at 1, dict_getitem.
  rewrite run_bind, Hpage, run_ret, run_bind. cbn [new].
  rewrite setitem2_run. pose proof Hs as [Hlen _]. rewrite Hlen.
  destruct (decide (start_row_offset_idx cell < - num_rows)) as [Hr|Hr].
  - by rewrite py_index_out_of_range by lia.
  - destruct (py_index_in_range (Z.to_nat num_rows)
                (Z.min (start_row_offset_idx cell) num_rows)) as [n Hn];
      [lia|].
    rewrite Hn. destruct (py_index_Some _ _ _ Hn) as [Hnlt _].
    destruct (g !! n) as [row|] eqn:Hrow;
      [|apply lookup_ge_None in Hrow; lia].
    rewrite (shape_lookup _ _ _ _ _ Hs Hrow).
    by rewrite py_index_out_of_range by lia.
Qed.

Lemma fill_cell_in_range_returns page_no_to_page page_no page num_rows num_cols
    cell g s :
  page_no_to_page !! page_no = Some page →
  shape g (Z.to_nat num_rows) (Z.to_nat num_cols) →
  - num_rows ≤ start_row_offset_idx cell →
  - num_cols ≤ start_col_offset_idx cell →
  ∃ g' s',
    fill_cell page_no_to_page page_no num_rows num_cols cell g s = (Ok g', s').
Proof.
  intros Hpage Hs Hr Hc.
  assert (∀ i, i ∈ range (Z.min (start_row_offset_idx cell) num_rows)
                         (Z.min (end_row_offset_idx cell) num_rows) →
               is_Some (py_index (Z.to_nat num_rows) i)) as Hrows.
  { intros i Hi. apply elem_of_range in Hi. apply py_index_in_range. lia. }
  assert (∀ j, j ∈ range (Z.min (start_col_offset_idx cell) num_cols)
                         (Z.min (end_col_offset_idx cell) num_cols) →
               is_Some (py_index (Z.to_nat num_cols) j)) as Hcols.
  { intros j Hj. apply elem_of_range in Hj. apply py_index_in_range. lia. }
  destruct (hoare_returns _ _ _ s
    (rows_loop_updated_at _ _ _ Hpage num_rows num_cols cell g s _ _
       Hrows Hcols)
    (updated_init _ _ _ _ _ _ Hs)) as (g' & s' & Hrun & _).
  by exists g', s'.
Qed.


(** A declaration with a non-empty clipped range raises [IndexError]
    exactly when its start row lies below -num_rows or its start column
    below -num_cols; it then fails at its very first store, after one
    [TableCell] has been constructed, and the receiver is untouched. *)
Theorem fill_cell_index_error page_no_to_page page_no page num_rows num_cols
    cell g s :
  page_no_to_page !! page_no = Some page →
  shape g (Z.to_nat num_rows) (Z.to_nat num_cols) →
  0 ≤ num_rows → 0 ≤ num_cols →
  Z.min (start_row_offset_idx cell) num_rows
    < Z.min (end_row_offset_idx cell) num_rows →
  Z.min (start_col_offset_idx cell) num_cols
    < Z.min (end_col_offset_idx cell) num_cols →
  ((fill_cell page_no_to_page page_no num_rows num_cols cell g s).1
     = Raise IndexError ↔
   start_row_offset_idx cell < - num_rows ∨
   start_col_offset_idx cell < - num_cols) ∧
  (start_row_offset_idx cell < - num_rows ∨
   start_col_offset_idx cell < - num_cols →
   fill_cell page_no_to_page page_no num_rows num_cols cell g s =
     (Raise IndexError,
      {| receiver := receiver s; next_id := S (next_id s) |})).
Proof.
  intros Hpage Hs HR HC Hrows Hcols.
  assert (start_row_offset_idx cell < - num_rows ∨
          start_col_offset_idx cell < - num_cols →
          fill_cell page_no_to_page page_no num_rows num_cols cell g s =
            (Raise IndexError,
             {| receiver := receiver s; next_id := S (next_id s) |})) as Hlow
    by (by apply (fill_cell_first_store_raises _ _ page)).
  split; [|done]. split.
  - intros Hraise.
    destruct (decide (start_row_offset_idx cell < - num_rows)); [by left|].
    destruct (decide (start_col_offset_idx cell < - num_cols)); [by right|].
    destruct (fill_cell_in_range_returns page_no_to_page page_no page
                num_rows num_cols cell g s Hpage Hs) as (g' & s' & Hrun);
      [lia..|].
    by rewrite Hrun in Hraise.
  - intros H. by rewrite (Hlow H).
Qed.

Lemma fill_cell_index_error_witness :
  fill_cell (page_dict [page1]) 1 1 1 (span (-5) 1 0 1 "w" false false)
    [[Obj 0%nat (empty_cell 0 0)]]
    {| receiver := document_of []; next_id := 1 |}
  = (Raise IndexError, {| receiver := document_of []; next_id := 2 |}).
Proof.
  refine (proj2 (fill_cell_index_error (page_dict [page1]) 1 page1 1 1
                   (span (-5) 1 0 1 "w" false false)
                   [[Obj 0%nat (empty_cell 0 0)]]
                   {| receiver := document_of []; next_id := 1 |}
                   _ _ _ _ _ _) _).
  - reflexivity.
  - split; [reflexivity|]. repeat constructor.
  - lia.
  - lia.
  - simpl. lia.
  - simpl. lia.
  - left. simpl. lia.
Defined.

(** ** The span set of a declaration *)

Lemma length_pairs (rs cs : list Z) :
  length (r ← rs; c ← cs; [(r, c)]) = (length rs * length cs)%nat.
Proof.
  assert (∀ r : Z, length (c ← cs; [(r, c)]) = length cs) as Hrow.
  { intros r. induction cs as [|c cs IHc]; [done|].
    rewrite bind_cons. simpl. by rewrite IHc. }
  induction rs as [|r rs IH]; [done|].
  rewrite bind_cons, length_app, IH, Hrow. done.
Qed.

(** The span set [make_spans] yields lists each pair of the clipped range
    once: it has no duplicates and as many entries as the clipped row range
    times the clipped column range; it is empty exactly when one of the two
    clipped ranges is. *)
Theorem make_spans_size num_rows num_cols cell :
  NoDup (make_spans num_rows num_cols cell) ∧
  length (make_spans num_rows num_cols cell) =
    (Z.to_nat (Z.min (end_row_offset_idx cell) num_rows
               - Z.min (start_row_offset_idx cell) num_rows) *
     Z.to_nat (Z.min (end_col_offset_idx cell) num_cols
               - Z.min (start_col_offset_idx cell) num_cols))%nat ∧
  (make_spans num_rows num_cols cell = [] ↔
   Z.min (end_row_offset_idx cell) num_rows
     ≤ Z.min (start_row_offset_idx cell) num_rows ∨
   Z.min (end_col_offset_idx cell) num_cols
     ≤ Z.min (start_col_offset_idx cell) num_cols).
Proof.
  assert (length (make_spans num_rows num_cols cell) =
    (Z.to_nat (Z.min (end_row_offset_idx cell) num_rows
               - Z.min (start_row_offset_idx cell) num_rows) *
     Z.to_nat (Z.min (end_col_offset_idx cell) num_cols
               - Z.min (start_col_offset_idx cell) num_cols))%nat) as Hlen.
  { unfold make_spans. rewrite length_pairs. unfold range.
    by rewrite !length_seqZ. }
  split; [|split; [done|]].
  - unfold make_spans. apply NoDup_bind.
    + intros r1 r2 [r c] _ _ H1 H2.
      apply list_elem_of_bind in H1 as (c1 & H1 & _).
      apply list_elem_of_bind in H2 as (c2 & H2 & _).
      apply list_elem_of_singleton in H1, H2. congruence.
    + intros r _. apply NoDup_bind.
      * intros c1 c2 [r' c] _ _ H1 H2.
        apply list_elem_of_singleton in H1, H2. congruence.
      * intros c _. apply NoDup_singleton.
      * apply NoDup_seqZ.
    + apply NoDup_seqZ.
  - rewrite <-length_zero_iff_nil, Hlen. nia.
Qed.

(** ** Declarations that do not interact *)

Lemma grid_values_ext g1 g2 R C :
  shape g1 R C → shape g2 R C →
  (∀ i j, (i < R)%nat → (j < C)%nat →
     oval <$> grid_at g1 i j = oval <$> grid_at g2 i j) →
  grid_values g1 = grid_values g2.
Proof.
  intros Hs1 Hs2 Hat. apply list_eq. intros i. unfold grid_values.
  rewrite !list_lookup_fmap.
  destruct (g1 !! i) as [row1|] eqn:Hrow1, (g2 !! i) as [row2|] eqn:Hrow2;
    simpl.
  - f_equal. apply list_eq. intros j. rewrite !list_lookup_fmap.
    pose proof (shape_lookup _ _ _ _ _ Hs1 Hrow1) as Hl1.
    pose proof (shape_lookup _ _ _ _ _ Hs2 Hrow2) as Hl2.
    destruct (decide (j < C)%nat) as [Hj|Hj].
    + pose proof (lookup_lt_Some _ _ _ Hrow1) as Hi. destruct Hs1 as [E1 _].
      specialize (Hat i j ltac:(lia) Hj). unfold grid_at in Hat.
      by rewrite Hrow1, Hrow2 in Hat.
    + by rewrite !lookup_ge_None_2 by lia.
  - apply lookup_lt_Some in Hrow1. apply lookup_ge_None in Hrow2.
    destruct Hs1, Hs2. lia.
  - apply lookup_ge_None in Hrow1. apply lookup_lt_Some in Hrow2.
    destruct Hs1, Hs2. lia.
  - done.
Qed.

(** Two lists of declarations with the same final value at every position
    give the same grid, by value. *)
Lemma build_table_data_values d pn page R C cells1 cells2 s1 s2 :
  d !! pn = Some page →
  Forall nonneg_start cells1 → Forall nonneg_start cells2 →
  (∀ i j, Z.of_nat i < R → Z.of_nat j < C →
     last_cover R C cells1 i j = last_cover R C cells2 i j) →
  ∃ g1 s1' g2 s2',
    build_table_data d pn R C cells1 s1 = (Ok g1, s1') ∧
    build_table_data d pn R C cells2 s2 = (Ok g2, s2') ∧
    grid_values g1 = grid_values g2.
Proof.
  intros Hpage Hnn1 Hnn2 Hlast.
  destruct (hoare_returns _ _ _ s1
    (build_table_data_filled _ _ _ R C _ s1 Hpage Hnn1) eq_refl)
    as (g1 & s1' & Hrun1 & _ & Hsh1 & Hg1).
  destruct (hoare_returns _ _ _ s2
    (build_table_data_filled _ _ _ R C _ s2 Hpage Hnn2) eq_refl)
    as (g2 & s2' & Hrun2 & _ & Hsh2 & Hg2).
  exists g1, s1', g2, s2'. split; [done|]. split; [done|].
  eapply grid_values_ext; [done..|].
  intros i j Hi Hj.
  destruct (Hg1 i j ltac:(lia) ltac:(lia)) as (o1 & -> & Hv1).
  destruct (Hg2 i j ltac:(lia) ltac:(lia)) as (o2 & -> & Hv2).
  simpl. rewrite Hv1, Hv2. unfold final_value.
  by rewrite Hlast by lia.
Qed.

(** Declarations that cover no common position commute, and a declaration
    repeated right after itself changes nothing: with non-negative start
    offsets, swapping two adjacent declarations that share no grid position
    and dropping an adjacent duplicate both leave the reconstructed grid
    the same by value. *)
Theorem declarations_commute d pn page R C l1 a b l2 s1 s2 :
  d !! pn = Some page →
  Forall nonneg_start (l1 ++ a :: b :: l2) →
  ((∀ i j, ¬ (covers R C a i j ∧ covers R C b i j)) →
   ∃ g1 s1' g2 s2',
     build_table_data d pn R C (l1 ++ a :: b :: l2) s1 = (Ok g1, s1') ∧
     build_table_data d pn R C (l1 ++ b :: a :: l2) s2 = (Ok g2, s2') ∧
     grid_values g1 = grid_values g2) ∧
  (a = b →
   ∃ g1 s1' g2 s2',
     build_table_data d pn R C (l1 ++ a :: b :: l2) s1 = (Ok g1, s1') ∧
     build_table_data d pn R C (l1 ++ a :: l2) s2 = (Ok g2, s2') ∧
     grid_values g1 = grid_values g2).
Proof.
  intros Hpage Hnn.
  apply Forall_app in Hnn as [Hl1 Hnn].
  apply Forall_cons in Hnn as [Ha Hnn]. apply Forall_cons in Hnn as [Hb Hl2].
  split.
  - intros Hdisj. apply (build_table_data_values d pn page); try done.
    + apply Forall_app. split; [done|]. by rewrite !Forall_cons.
    + apply Forall_app. split; [done|]. by rewrite !Forall_cons.
    + intros i j _ _. unfold last_cover. rewrite !filter_app. f_equal. f_equal.
      rewrite !filter_cons. specialize (Hdisj i j).
      destruct (decide (covers R C a i j)), (decide (covers R C b i j));
        try done. tauto.
  - intros <-. apply (build_table_data_values d pn page); try done.
    + apply Forall_app. split; [done|]. by rewrite !Forall_cons.
    + apply Forall_app. split; [done|]. by rewrite !Forall_cons.
    + intros i j _ _. unfold last_cover.
      rewrite !filter_app, !filter_cons.
      destruct (decide (covers R C a i j)); [|done].
      rewrite !last_app. simpl.
      by destruct (filter _ l2).
Qed.

Lemma declarations_commute_witness :
  ∃ g1 s1' g2 s2',
    build_table_data (page_dict [page1]) 1 1 2
      ([] ++ span 0 1 0 1 "a" false false :: span 0 1 1 2 "b" false false :: [])
      (store_of []) = (Ok g1, s1') ∧
    build_table_data (page_dict [page1]) 1 1 2
      ([] ++ span 0 1 1 2 "b" false false :: span 0 1 0 1 "a" false false :: [])
      (store_of []) = (Ok g2, s2') ∧
    grid_values g1 = grid_values g2.
Proof.
  apply (proj1 (declarations_commute (page_dict [page1]) 1 page1 1 2 []
                  (span 0 1 0 1 "a" false false)
                  (span 0 1 1 2 "b" false false) []
                  (store_of []) (store_of []) eq_refl
                  ltac:(repeat constructor; simpl; lia))).
  intros i j. unfold covers. simpl. lia.
Defined.

(** ** Opening an input document *)

(** Unfolds the constructor and splits on every outcome it inspects. *)
Ltac run_init :=
  unfold InputDocument_init, try_body, check_size_and_open,
    log_with_file_name, fresh_input, get_backend, get_fields, set_fields,
    set_backend, log_exception, call, io_raise, mbind, Init_bind, mret,
    Init_ret;
  simpl;
  repeat (case_match; simplify_eq/=).

(** What a constructed input document guarantees: [limits] is the given
    limits or the default ones; [valid] holds exactly when a page count was
    recorded and does not exceed [max_num_pages]; a recorded page count is
    positive and is the backend's, with a non-empty hash; a recorded hash
    comes with a file size within [max_file_size]; and a valid document
    has logged no exception. *)
Theorem input_document_valid w path_or_stream filename lim pdf_backend o :
  InputDocument_init w path_or_stream filename lim pdf_backend = IoOk o →
  limits (fields o) = default (default_limits w) lim ∧
  (valid (fields o) = true ↔
   ∃ pc, page_count (fields o) = Some pc ∧
         pc ≤ max_num_pages (limits (fields o))) ∧
  (∀ pc, page_count (fields o) = Some pc →
     0 < pc ∧
     ∃ h b, document_hash (fields o) = Some h ∧ h ≠ "" ∧
            _backend o = Some b ∧ backend_page_count b = pc) ∧
  (∀ h, document_hash (fields o) = Some h →
     create_file_hash w path_or_stream = IoOk h ∧
     ∃ size, filesize (fields o) = Some size ∧
             size ≤ max_file_size (limits (fields o))) ∧
  (valid (fields o) = true → logged o = []).
Proof.
  intros Hinit. revert Hinit. run_init; intros; simplify_eq/=.
  all: split; [done|].
  all: split_and!.
  all: try done.
  all: try (intros; discriminate).
  all: try (split;
    [intros ?; first [discriminate|eexists; split; [reflexivity|lia]]
    |intros (pc & ? & ?); simplify_eq; first [done|lia]]).
  all: try (intros ? [= <-]; split; [lia|]; eexists _, _; by split_and!).
  all: intros ? [= <-]; split; [done|]; eexists; split; [done|lia].
Qed.

Lemma input_document_valid_witness :
  ∃ o, InputDocument_init world0 (APath ["tmp"; "a.pdf"]) None None
         (PyPdfiumDocumentBackend world0) = IoOk o ∧
       valid (fields o) = true ∧ page_count (fields o) = Some 3.
Proof.
  eexists. split; [vm_compute; reflexivity|].
  split; [|reflexivity].
  apply (proj1 (proj2 (input_document_valid world0 (APath ["tmp"; "a.pdf"])
                         None None (PyPdfiumDocumentBackend world0) _
                         ltac:(vm_compute; reflexivity)))).
  exists 3. split; [reflexivity|]. simpl. lia.
Defined.



(** ** The conversion input *)

Lemma init_file w path_or_stream filename lim pdf_backend o :
  InputDocument_init w path_or_stream filename lim pdf_backend = IoOk o →
  limits (fields o) = default (default_limits w) lim ∧
  match path_or_stream with
  | APath path => file (fields o) = Some path
  | ABytesIO _ =>
      ∃ f, filename = Some f ∧ file (fields o) = Some (parse_path w f)
  | AnotherObject => file (fields o) = None
  end.
Proof. run_init; intros; simplify_eq/=; eauto. Qed.

Lemma init_returns w path_or_stream filename lim pdf_backend :
  handled w pdf_backend →
  (∀ content, path_or_stream = ABytesIO content → is_Some filename) →
  ∃ o, InputDocument_init w path_or_stream filename lim pdf_backend = IoOk o.
Proof.
  intros (Hstat & Hhash & Hback) Hname.
  destruct (InputDocument_init w path_or_stream filename lim pdf_backend)
    as [o|e] eqn:Hinit; [by exists o|exfalso].
  revert Hinit. run_init; intros; simplify_eq/=;
    try (by eapply Hstat); try (by eapply Hhash); try (by eapply Hback).
  all: by destruct (Hname _ eq_refl).
Qed.

Lemma docs_from_files w lim pdf_backend srcs objs e :
  docs_from w lim pdf_backend srcs = (objs, e) →
  Forall (λ o, limits (fields o) = default (default_limits w) lim) objs ∧
  (λ o, file (fields o)) <$> objs
    `prefix_of` Some <$> omap (source_file w) srcs ∧
  (e = None →
   (λ o, file (fields o)) <$> objs = Some <$> omap (source_file w) srcs).
Proof.
  revert objs e. induction srcs as [|src srcs IH]; intros objs e; simpl.
  - intros [= <- <-]. split; [constructor|]. split; [done|done].
  - destruct src as [path|filename stream|]; simpl.
    + destruct (InputDocument_init _ _ _ _ _) as [o|e0] eqn:Hinit.
      * destruct (docs_from w lim pdf_backend srcs) as [rest e1] eqn:Hrest.
        intros [= <- <-]. destruct (IH _ _ eq_refl) as (Hlim & Hpre & Hall).
        destruct (init_file _ _ _ _ _ _ Hinit) as [Hl Hf]. simpl in Hf.
        split; [by constructor|]. rewrite !fmap_cons, Hf.
        split; [by apply prefix_cons|]. intros He. by rewrite Hall.
      * intros [= <- <-]. split; [constructor|].
        split; [apply prefix_nil|done].
    + destruct (InputDocument_init _ _ _ _ _) as [o|e0] eqn:Hinit.
      * destruct (docs_from w lim pdf_backend srcs) as [rest e1] eqn:Hrest.
        intros [= <- <-]. destruct (IH _ _ eq_refl) as (Hlim & Hpre & Hall).
        destruct (init_file _ _ _ _ _ _ Hinit) as [Hl (f & [= <-] & Hf)].
        split; [by constructor|]. rewrite !fmap_cons, Hf.
        split; [by apply prefix_cons|]. intros He. by rewrite Hall.
      * intros [= <- <-]. split; [constructor|].
        split; [apply prefix_nil|done].
    + apply IH.
Qed.

Lemma docs_from_returns w lim pdf_backend srcs :
  handled w pdf_backend →
  ∃ objs, docs_from w lim pdf_backend srcs = (objs, None).
Proof.
  intros Hh. induction srcs as [|src srcs [rest IH]]; simpl; [by eexists|].
  destruct src as [path|filename stream|]; simpl.
  - destruct (init_returns w (APath path) None lim pdf_backend Hh) as [o ->];
      [done|]. rewrite IH. by eexists.
  - destruct (init_returns w (ABytesIO stream) (Some filename) lim pdf_backend
                Hh) as [o ->]; [by eauto|]. rewrite IH. by eexists.
  - rewrite IH. by eexists.
Qed.

(** [docs] opens the sources in order: the documents it yields are, one
    for one, the paths and streams of the iterator (objects of other
    classes are skipped), each under its own path or parsed file name and
    with the limits of the conversion input or the default ones; an
    exception cuts the sequence short but never reorders it. When nothing
    outside raises an unhandled exception, every source is opened, so
    [from_paths] yields exactly one document per path. *)
Theorem docs_in_order w self pdf_backend :
  (∀ objs e, docs w self pdf_backend = (objs, e) →
     Forall (λ o, limits (fields o)
                    = default (default_limits w) (dci_limits self)) objs ∧
     (λ o, file (fields o)) <$> objs `prefix_of`
       Some <$> omap (source_file w) (_path_or_stream_iterator self) ∧
     (e = None →
      (λ o, file (fields o)) <$> objs
        = Some <$> omap (source_file w) (_path_or_stream_iterator self))) ∧
  (handled w (default (PyPdfiumDocumentBackend w) pdf_backend) →
   (∃ objs, docs w self pdf_backend = (objs, None)) ∧
   ∀ paths lim, self = from_paths paths lim →
     ∃ objs, docs w self pdf_backend = (objs, None) ∧
             (λ o, file (fields o)) <$> objs = Some <$> paths).
Proof.
  split.
  - intros objs e. apply docs_from_files.
  - intros Hh. split; [by apply docs_from_returns|].
    intros paths lim ->. unfold docs. simpl.
    destruct (docs_from_returns w lim _ (SrcPath <$> paths) Hh) as [objs Hrun].
    exists objs. split; [done|].
    destruct (docs_from_files _ _ _ _ _ _ Hrun) as (_ & _ & Hall).
    rewrite Hall by done. f_equal.
    clear. induction paths as [|p paths IH]; [done|]. simpl. by f_equal.
Qed.

Lemma docs_in_order_witness :
  ∃ objs, docs world0 (from_paths [["a.pdf"]; ["b.pdf"]] None) None
            = (objs, None) ∧
          (λ o, file (fields o)) <$> objs = [Some ["a.pdf"]; Some ["b.pdf"]].
Proof.
  refine (proj2 (proj2 (docs_in_order world0
            (from_paths [["a.pdf"]; ["b.pdf"]] None) None) _)
            [["a.pdf"]; ["b.pdf"]] None eq_refl).
  repeat split; intros; discriminate.
Defined.

(** ** Rendering after assembly *)

(** [to_ds_document] returns the document without storing it: rendering
    after a call gives what rendering before the call gave, so with
    [output] unset [render_as_markdown] still returns the empty string and
    [render_as_dict] the empty dictionary. *)
Theorem render_after_assembly {Dict : Type} (export_to_markdown : DsDocument → string)
    (model_dump : DsDocument → Dict) (empty : Dict) s :
  (render_as_markdown export_to_markdown (to_ds_document s).2).1
    = (render_as_markdown export_to_markdown s).1 ∧
  (render_as_dict model_dump empty (to_ds_document s).2).1
    = (render_as_dict model_dump empty s).1 ∧
  (output (receiver s) = None →
   (render_as_markdown export_to_markdown (to_ds_document s).2).1 = Ok "" ∧
   (render_as_dict model_dump empty (to_ds_document s).2).1 = Ok empty).
Proof.
  assert (receiver (to_ds_document s).2 = receiver s) as Hr.
  { pose proof (read_only_to_ds_document (receiver s) s eq_refl) as H.
    by destruct (to_ds_document s) as [[doc|e] s']. }
  unfold render_as_markdown, render_as_dict, get_self.
  rewrite !run_bind, Hr.
  split; [by destruct (output (receiver s))|].
  split; [by destruct (output (receiver s))|].
  by intros ->.
Qed.

Lemma render_after_assembly_witness :
  (render_as_markdown (λ _, "# doc")
     (to_ds_document (store_of three_elements)).2).1 = Ok "".
Proof.
  apply (proj2 (proj2 (render_after_assembly (λ _, "# doc") (λ _, 1%nat) 0%nat
                         (store_of three_elements)))).
  reflexivity.
Defined.

(** ** A table that cannot be stored *)

Lemma build_table_data_app d pn R C cpre crest s :
  build_table_data d pn R C (cpre ++ crest) s =
  match build_table_data d pn R C cpre s with
  | (Ok g, s') => for_each crest (fill_cell d pn R C) g s'
  | (Raise e, s') => (Raise e, s')
  end.
Proof.
  unfold build_table_data. rewrite !run_bind.
  destruct (init_table_data R C s) as [[g0|e] s0]; [|done].
  apply for_each_app.
Qed.

(** An offending declaration aborts the whole document: when the elements
    before a table are well formed, the table's page is known, the
    declarations before one of its declarations start at non-negative
    offsets, and that declaration has a non-empty clipped range starting
    below -num_rows or -num_cols, the method raises [IndexError], whatever
    follows, and leaves the receiver as it was. *)
Theorem first_index_error s path au pre bad rest num_rows num_cols
    cpre c crest :
  file (input (receiver s)) = Some path →
  assembled (receiver s) = Some au →
  elements au = pre ++ bad :: rest →
  Forall (well_formed (pages (receiver s))) pre →
  el_page_no bad ∈ pg_page_no <$> pages (receiver s) →
  el_variant bad = TableElement num_rows num_cols (cpre ++ c :: crest) →
  Forall nonneg_start cpre →
  0 ≤ num_rows → 0 ≤ num_cols →
  Z.min (start_row_offset_idx c) num_rows
    < Z.min (end_row_offset_idx c) num_rows →
  Z.min (start_col_offset_idx c) num_cols
    < Z.min (end_col_offset_idx c) num_cols →
  start_row_offset_idx c < - num_rows ∨
  start_col_offset_idx c < - num_cols →
  ∃ s', to_ds_document s = (Raise IndexError, s') ∧
        receiver s' = receiver s.
Proof.
  intros Hfile Hau Hels Hpre Hpage Hvar Hcpre HR HC Hrows Hcols Hlow.
  set (d := page_dict (pages (receiver s))).
  apply page_dict_lookup in Hpage as [page Hpage]. fold d in Hpage.
  destruct (for_each_route_returns _ _ empty_locals s Hpre)
    as (loc & s1 & Hrun).
  fold d in Hrun.
  destruct (hoare_returns _ _ _ s1
    (build_table_data_filled _ _ _ num_rows num_cols _ s1 Hpage Hcpre) eq_refl)
    as (g & s2 & Hbuild & _ & Hshape & _).
  pose proof (fill_cell_first_store_raises d (el_page_no bad) page num_rows num_cols
                c g s2 Hpage Hshape HR HC Hrows Hcols Hlow) as Hfill.
  assert (to_ds_document s =
          (Raise IndexError,
           {| receiver := receiver s2; next_id := S (next_id s2) |})) as Hdoc.
  { rewrite to_ds_document_run, Hfile, Hau, Hels, for_each_app.
    fold d. rewrite Hrun. simpl. rewrite run_bind.
    unfold route at 1, dict_getitem. rewrite run_bind, Hpage, run_ret, Hvar.
    rewrite run_bind, build_table_data_app, Hbuild. simpl.
    by rewrite run_bind, Hfill. }
  eexists. split; [exact Hdoc|].
  pose proof (read_only_to_ds_document (receiver s) s eq_refl) as Hframe.
  by rewrite Hdoc in Hframe.
Qed.

Lemma first_index_error_witness :
  (to_ds_document
     (store_of [element_of "Text" 1 (TextElement "a");
                element_of "Table" 1
                  (TableElement 1 1 ([span 0 1 0 1 "x" false false] ++
                                     span (-5) 1 0 1 "w" false false :: []))])).1
  = Raise IndexError.
Proof.
  destruct (first_index_error
    (store_of [element_of "Text" 1 (TextElement "a");
               element_of "Table" 1
                 (TableElement 1 1 ([span 0 1 0 1 "x" false false] ++
                                    span (-5) 1 0 1 "w" false false :: []))])
    ["tmp"; "a.pdf"]
    {| elements :=
         [element_of "Text" 1 (TextElement "a");
          element_of "Table" 1
            (TableElement 1 1 ([span 0 1 0 1 "x" false false] ++
                               span (-5) 1 0 1 "w" false false :: []))] |}
    [element_of "Text" 1 (TextElement "a")]
    (element_of "Table" 1
       (TableElement 1 1 ([span 0 1 0 1 "x" false false] ++
                          span (-5) 1 0 1 "w" false false :: [])))
    [] 1 1 [span 0 1 0 1 "x" false false]
    (span (-5) 1 0 1 "w" false false) []
    eq_refl eq_refl eq_refl) as (s' & -> & _).
  - repeat constructor.
  - left.
  - reflexivity.
  - repeat constructor; simpl; lia.
  - lia.
  - lia.
  - simpl. lia.
  - simpl. lia.
  - left. simpl. lia.
  - reflexivity.
Defined.
